(** * Landslide use case: the functions of [utils.py]

    [cal_subsurface_flow_depth] turns a stack of per-layer soil-moisture
    rasters and a soil-depth raster into a subsurface flow depth raster;
    [cal_safety_factor] evaluates the infinite-slope factor of safety;
    [install_api_key] stores two API keys.

    Modelling conventions.
    - A raster is a float64 array, given as the list of its cells.  Both
      functions work cell by cell, so for rasters of one shape, of any rank,
      the flattened order is exact.  Broadcasting is modelled for
      one-dimensional arrays (an array of one cell is stretched); it is not
      modelled between different shapes of higher rank.
    - The moisture stack is an array with one more axis, given as the list
      of its rows, one row per layer; the empty list stands for the array
      with no layer, of shape [(0, n)].
    - float64 arithmetic is idealised: a finite value is an exact real (no
      rounding, no overflow), and [np.pi], [np.sin], [np.cos], [np.tan] are
      [PI], [sin], [cos], [tan].  Under numpy's default error state a
      division by zero does not raise: it warns, stores [inf], [-inf] or
      [nan] and goes on; [NonFinite] stands for any of these three.  Input
      rasters and scalar parameters hold finite values, so every divisor of
      the two functions is finite, and a non-finite value only ever is a
      numerator or an operand of [+], [-], [*], where it stays non-finite.
      Only what rounding keeps is stated of these definitions; module [B64]
      runs the aggregation in binary64 itself.
    - The only exceptions the two functions can raise are Python's
      [IndexError] (list index out of range) and numpy's [ValueError]
      (operands that cannot be broadcast together). *)

From Stdlib Require Import Reals Lra Lia List Arith.
From Stdlib Require String Ascii PrimFloat.
Import ListNotations.

Open Scope R_scope.

(** ** Exceptions and results *)

Inductive exn : Type :=
| IndexError
| ValueError.

Inductive result (A : Type) : Type :=
| Ok (a : A)
| Raise (e : exn).

Arguments Ok {A} a.
Arguments Raise {A} e.

Definition bind {A B : Type} (c : result A) (k : A -> result B) : result B :=
  match c with
  | Ok a => k a
  | Raise e => Raise e
  end.

Notation "x <- c ;; k" := (bind c (fun x => k))
  (at level 61, c at next level, right associativity).

Fixpoint mapM {A B : Type} (f : A -> result B) (xs : list A) : result (list B) :=
  match xs with
  | [] => Ok []
  | x :: xs' =>
      y <- f x ;;
      ys <- mapM f xs' ;;
      Ok (y :: ys)
  end.

(** ** The fragment of numpy the two functions use *)

Module Np.

(** A float64 value that an operation produced. *)
Inductive f64 : Type :=
| Finite (x : R)
| NonFinite.

Definition fadd (a b : f64) : f64 :=
  match a, b with
  | Finite x, Finite y => Finite (x + y)
  | _, _ => NonFinite
  end.

Definition fsub (a b : f64) : f64 :=
  match a, b with
  | Finite x, Finite y => Finite (x - y)
  | _, _ => NonFinite
  end.

Definition fmul (a b : f64) : f64 :=
  match a, b with
  | Finite x, Finite y => Finite (x * y)
  | _, _ => NonFinite
  end.

(** [a / d] for a finite divisor [d]: a zero divisor gives [inf] or
    [nan] (with a RuntimeWarning, no exception). *)
Definition fdiv (a : f64) (d : R) : f64 :=
  match a with
  | Finite x => if Req_dec_T d 0 then NonFinite else Finite (x / d)
  | NonFinite => NonFinite
  end.

Abbreviation raster := (list R).
Abbreviation farray := (list f64).

(** Broadcasting of two one-dimensional shapes. *)
Definition broadcast_shape (n m : nat) : result nat :=
  if Nat.eqb n m then Ok n
  else if Nat.eqb n 1 then Ok m
  else if Nat.eqb m 1 then Ok n
  else Raise ValueError.

Definition broadcast_to {A : Type} (n : nat) (xs : list A) : list A :=
  match xs with
  | [x] => repeat x n
  | _ => xs
  end.

Fixpoint zip_with {A B C : Type} (f : A -> B -> C)
    (xs : list A) (ys : list B) : list C :=
  match xs, ys with
  | x :: xs', y :: ys' => f x y :: zip_with f xs' ys'
  | _, _ => []
  end.

(** An elementwise binary operation on two arrays. *)
Definition map2 {A B C : Type} (f : A -> B -> C)
    (xs : list A) (ys : list B) : result (list C) :=
  n <- broadcast_shape (length xs) (length ys) ;;
  Ok (zip_with f (broadcast_to n xs) (broadcast_to n ys)).

(** [a[a >= t] = t] and [a[a <= t] = t]: assignment under a boolean mask. *)
Definition set_where_ge (t : R) (a : raster) : raster :=
  map (fun x => if Rge_dec x t then t else x) a.

Definition set_where_le (t : R) (a : raster) : raster :=
  map (fun x => if Rle_dec x t then t else x) a.

(** The rows of a two-dimensional array all have the same length. *)
Definition asarray2 (rows : list raster) : result (list raster) :=
  match rows with
  | [] => Ok []
  | r :: rs =>
      if forallb (fun r' => Nat.eqb (length r') (length r)) rs
      then Ok rows
      else Raise ValueError
  end.

(** The product of two two-dimensional arrays with the same number of rows. *)
Definition mul2 (a b : list raster) : result (list raster) :=
  a' <- asarray2 a ;;
  mapM (fun p => map2 Rmult (fst p) (snd p)) (combine a' b).

(** Number of columns of a two-dimensional array; [n] when it has no row. *)
Definition ncols {A : Type} (n : nat) (rows : list (list A)) : nat :=
  match rows with
  | [] => n
  | r :: _ => length r
  end.

(** [np.sum(a, axis=0)] for an array with [c] columns. *)
Definition sum_axis0 (c : nat) (rows : list farray) : farray :=
  fold_left (zip_with fadd) rows (repeat (Finite 0) c).

End Np.

Import Np.

(** ** [cal_subsurface_flow_depth] *)

(** Python's [layer_threshold[i]] for [i >= 0]. *)
Definition getitem (l : list R) (i : nat) : result R :=
  match nth_error l i with
  | Some x => Ok x
  | None => Raise IndexError
  end.

(** The body of the loop: the thickness, at every cell, of the part of the
    soil column inside layer [i]. *)
Definition soil_layer (soil_depth : raster) (layer_threshold : list R)
    (i : nat) : result raster :=
  (* soil_layer = np.copy(soil_depth) *)
  let soil_layer := soil_depth in
  (* soil_layer[soil_layer >= layer_threshold[i + 1]] = layer_threshold[i + 1] *)
  hi <- getitem layer_threshold (i + 1) ;;
  let soil_layer := set_where_ge hi soil_layer in
  (* soil_layer[soil_layer <= layer_threshold[i]] = layer_threshold[i] *)
  lo <- getitem layer_threshold i ;;
  let soil_layer := set_where_le lo soil_layer in
  (* soil_layer = soil_layer - layer_threshold[i] *)
  let soil_layer := map (fun x => x - lo) soil_layer in
  Ok soil_layer.

(** The loop [for i in range(0, len(soil_water_layer))], which fills
    [soil_depth_layer] row by row. *)
Definition soil_depth_layers (soil_depth : raster) (nlayers : nat)
    (layer_threshold : list R) : result (list raster) :=
  mapM (soil_layer soil_depth layer_threshold) (seq 0 nlayers).

Definition cal_subsurface_flow_depth (soil_depth : raster)
    (soil_water_layer : list raster) (layer_threshold : list R)
    (porosity : R) : result farray :=
  (* for i in range(0, len(soil_water_layer)): soil_depth_layer[i] = ... *)
  soil_depth_layer <-
    soil_depth_layers soil_depth (length soil_water_layer) layer_threshold ;;
  (* water_depth_layer = soil_water_layer * soil_depth_layer / porosity *)
  product <- mul2 soil_water_layer soil_depth_layer ;;
  let water_depth_layer :=
    map (map (fun x => fdiv (Finite x) porosity)) product in
  (* subsurface_flow_depth = np.sum(water_depth_layer, axis=0) *)
  let subsurface_flow_depth :=
    sum_axis0 (ncols (length soil_depth) water_depth_layer) water_depth_layer in
  Ok subsurface_flow_depth.

Definition default_layer_threshold : list R := [0; 7 / 100; 28 / 100; 1; 2].
Definition default_porosity : R := 5 / 10.

(** ** [cal_safety_factor] *)

Definition cal_safety_factor (slope_angle : raster)
    (subsurface_flow_depth : farray) (soil_depth : raster)
    (root_cohesion soil_cohesion soil_bulk_density water_density
     gravity_acceleration soil_internal_friction_angle : R) : result farray :=
  (* tan_fi = np.tan(soil_internal_friction_angle * np.pi / 180) *)
  let tan_fi := tan (soil_internal_friction_angle * PI / 180) in
  (* relative_wetness = subsurface_flow_depth / soil_depth *)
  relative_wetness <- map2 fdiv subsurface_flow_depth soil_depth ;;
  (* left_term = (root_cohesion + soil_cohesion)
                 / (soil_depth * soil_bulk_density * gravity_acceleration)
                 / np.sin(slope_angle) *)
  let weight :=
    map (fun hs => hs * soil_bulk_density * gravity_acceleration) soil_depth in
  let cohesion := map (fdiv (Finite (root_cohesion + soil_cohesion))) weight in
  left_term <- map2 fdiv cohesion (map sin slope_angle) ;;
  (* right_term = np.cos(slope_angle) * tan_fi
                  * (1 - relative_wetness * water_density / soil_bulk_density)
                  / np.sin(slope_angle) *)
  let dry :=
    map (fun w => fsub (Finite 1)
                    (fdiv (fmul w (Finite water_density)) soil_bulk_density))
        relative_wetness in
  friction <-
    map2 fmul (map (fun a => Finite (cos a * tan_fi)) slope_angle) dry ;;
  right_term <- map2 fdiv friction (map sin slope_angle) ;;
  (* safety_factor = left_term + right_term *)
  safety_factor <- map2 fadd left_term right_term ;;
  Ok safety_factor.

(** ** The computation at one cell

    Both functions are elementwise; these definitions give the value at one
    cell, and the lemmas below relate them to the array code. *)

(** Thickness of the part of a soil column of depth [x] that lies in the
    layer between [lo] and [hi]. *)
Definition clip_cell (lo hi x : R) : R :=
  let x1 := if Rge_dec x hi then hi else x in
  let x2 := if Rle_dec x1 lo then lo else x1 in
  x2 - lo.

(** Water held by the successive layers at a cell of soil depth [s], before
    the division by the porosity: [ms] is the moisture of the layers at the
    cell, [thr] the thresholds from the first of these layers on. *)
Fixpoint layer_water (s : R) (ms : list R) (thr : list R) : list R :=
  match ms, thr with
  | m :: ms', lo :: ((hi :: _) as thr') =>
      m * clip_cell lo hi s :: layer_water s ms' thr'
  | _, _ => []
  end.

Definition cell_flow (s : R) (ms : list R) (thr : list R) (porosity : R) : f64 :=
  fold_left fadd (map (fun w => fdiv (Finite w) porosity) (layer_water s ms thr))
            (Finite 0).

(** Cell [j] of an array broadcast to [c] cells. *)
Definition cell {A : Type} (d : A) (c : nat) (xs : list A) (j : nat) : A :=
  nth j (broadcast_to c xs) d.

(** Moisture of every layer at cell [j]. *)
Definition column (c : nat) (soil_water_layer : list raster) (j : nat) : list R :=
  map (fun row => cell 0 c row j) soil_water_layer.

Fixpoint strictly_increasing (thr : list R) : Prop :=
  match thr with
  | a :: ((b :: _) as thr') => a < b /\ strictly_increasing thr'
  | _ => True
  end.

(** All the rasters of a call have the shape of the soil depth raster. *)
Definition same_shape (soil_depth : raster) (soil_water_layer : list raster) : Prop :=
  Forall (fun row => length row = length soil_depth) soil_water_layer.

(** The factor of safety at one cell as the specification writes the
    infinite-slope formula (tan_phi, relative_wetness, cohesion_term,
    friction_term, FS), in the arithmetic of the arrays. *)
Definition fs_formula (slope : R) (flow : f64) (hs : R)
    (root_cohesion soil_cohesion bulk_density water_density g friction_deg : R)
    : f64 :=
  let tan_phi := tan (friction_deg * PI / 180) in
  let relative_wetness := fdiv flow hs in
  let cohesion_term :=
    fdiv (fdiv (Finite (root_cohesion + soil_cohesion)) (hs * bulk_density * g))
         (sin slope) in
  let friction_term :=
    fdiv (fmul (Finite (cos slope * tan_phi))
               (fsub (Finite 1)
                     (fdiv (fmul relative_wetness (Finite water_density))
                           bulk_density)))
         (sin slope) in
  fadd cohesion_term friction_term.

(** An array of [n] cells takes part in a result of [c] cells: it has the
    shape of the result or is stretched from one cell. *)
Definition fits (c n : nat) : Prop := n = c \/ n = 1%nat.

(** The shapes the product accepts: the moisture stack is a rectangular
    array whose rows can be broadcast against the soil depth raster. *)
Definition broadcastable (soil_depth : raster) (soil_water_layer : list raster) : Prop :=
  exists m c, Forall (fun row => length row = m) soil_water_layer /\
              broadcast_shape m (length soil_depth) = Ok c.

(** Sum of a list of reals. *)
Definition Rsum (l : list R) : R := fold_right Rplus 0 l.

(** Thickness that the loop stored for layer [i] at cell [j]. *)
Definition thickness_at (rows : list raster) (i j : nat) : option R :=
  match nth_error rows i with
  | Some row => nth_error row j
  | None => None
  end.

(** The moisture stack with the raster of layer [k] replaced. *)
Fixpoint replace_layer (k : nat) (row' : raster) (swl : list raster) : list raster :=
  match swl, k with
  | [], _ => []
  | _ :: rest, O => row' :: rest
  | row :: rest, S k' => row :: replace_layer k' row' rest
  end.

(** ** [install_api_key]

    The function talks to the terminal and writes two files.  Its world is
    the lines still to be read from standard input, the texts written to
    standard output, the files by path, and which paths can be opened for
    writing.  A path names one file (no links), paths are joined as on
    POSIX, and [home_dir] and [work_dir] stand for what
    [os.path.expanduser('~')] and [os.getcwd()] return.  An exception
    leaves the world as it was when it was raised. *)

Module ApiKey.
Import String Ascii.
Local Open Scope string_scope.

Inductive io_exn : Type :=
| EOFError
| OSError.

Record world : Type := World {
  stdin : list string;
  stdout : list string;
  files : string -> option string;
  writable : string -> bool
}.

Definition io (A : Type) : Type := world -> world * (A + io_exn).

Definition io_bind {A B : Type} (c : io A) (k : A -> io B) : io B :=
  fun w =>
    match c w with
    | (w', inl a) => k a w'
    | (w', inr e) => (w', inr e)
    end.

Notation "x <-- c ;; k" := (io_bind c (fun x => k))
  (at level 61, c at next level, right associativity).

Definition newline : string := String (ascii_of_nat 10) EmptyString.

(** [input(prompt)]: writes the prompt, reads one line without its end of
    line, raises [EOFError] when no line is left. *)
Definition input (prompt : string) : io string :=
  fun w =>
    let out := (stdout w ++ [prompt])%list in
    match stdin w with
    | [] => (World [] out (files w) (writable w), inr EOFError)
    | line :: rest => (World rest out (files w) (writable w), inl line)
    end.

(** [print(text)] *)
Definition print (text : string) : io unit :=
  fun w =>
    (World (stdin w) (stdout w ++ [(text ++ newline)%string])%list (files w)
           (writable w),
     inl tt).

(** [with open(path, 'w') as f: f.write(content)]: the file is created or
    truncated and holds [content]; [open] raises [OSError] on a path that
    cannot be opened for writing. *)
Definition write_file (path content : string) : io unit :=
  fun w =>
    if writable w path
    then (World (stdin w) (stdout w)
                (fun p => if String.eqb p path then Some content else files w p)
                (writable w),
          inl tt)
    else (w, inr OSError).

Definition starts_with_sep (s : string) : bool :=
  match s with
  | String c _ => Ascii.eqb c "/"
  | EmptyString => false
  end.

Fixpoint ends_with_sep (s : string) : bool :=
  match s with
  | EmptyString => false
  | String c EmptyString => Ascii.eqb c "/"
  | String _ rest => ends_with_sep rest
  end.

(** [os.path.join(a, b)] of [posixpath]. *)
Definition path_join (a b : string) : string :=
  if starts_with_sep b then b
  else if (String.eqb a "" || ends_with_sep a)%bool then a ++ b
  else a ++ "/" ++ b.

Definition cds_url : string := "https://cds.climate.copernicus.eu/api/v2".

Definition topo_config_path (work_dir : string) : string :=
  path_join work_dir ".opentopography.txt".

Definition cds_config_path (home_dir : string) : string :=
  path_join home_dir ".cdsapirc".

(** ['url: {} \nkey: {}'.format(cds_url, cds_key)] *)
Definition cds_config_content (cds_key : string) : string :=
  "url: " ++ cds_url ++ " " ++ newline ++ "key: " ++ cds_key.

Definition install_api_key (home_dir work_dir : string) : io unit :=
  (* topo_key = input('Enter Your OpenTopography API Key: ') *)
  topo_key <-- input "Enter Your OpenTopography API Key: " ;;
  (* with open(topo_config_path, 'w') as f: f.write(topo_key) *)
  _ <-- write_file (topo_config_path work_dir) topo_key ;;
  _ <-- print ("OpenTopography API Key file is created at "
               ++ topo_config_path work_dir ++ ".") ;;
  (* cds_key = input('Enter Your CDS API Key: ') *)
  cds_key <-- input "Enter Your CDS API Key: " ;;
  (* with open(cds_config_path, 'w') as f: f.write(cds_config_content) *)
  _ <-- write_file (cds_config_path home_dir) (cds_config_content cds_key) ;;
  print ("CDS API Key file is created at " ++ cds_config_path home_dir).

(** Last character of a string. *)
Fixpoint last_char (s : string) : option ascii :=
  match s with
  | EmptyString => None
  | String c EmptyString => Some c
  | String _ rest => last_char rest
  end.

End ApiKey.

(** ** [cal_subsurface_flow_depth] in binary64

    The same function on primitive binary64 floats, every operation rounded
    as numpy rounds it.  [np.sum] over the layers starts from 0; for a
    raster of several cells it adds the rows one after the other, for a
    raster of one cell the layers are contiguous and it sums them pairwise
    (in order below eight values, with eight running sums up to 128 values,
    by halves above). *)

Module B64.
Import PrimFloat.
Local Open Scope float_scope.
Local Set Warnings "-inexact-float".

Definition getitem (l : list float) (i : nat) : result float :=
  match nth_error l i with
  | Some x => Ok x
  | None => Raise IndexError
  end.

Definition set_where_ge (t : float) (a : list float) : list float :=
  map (fun x => if t <=? x then t else x) a.

Definition set_where_le (t : float) (a : list float) : list float :=
  map (fun x => if x <=? t then t else x) a.

Definition soil_layer (soil_depth : list float) (layer_threshold : list float)
    (i : nat) : result (list float) :=
  let soil_layer := soil_depth in
  hi <- getitem layer_threshold (i + 1) ;;
  let soil_layer := set_where_ge hi soil_layer in
  lo <- getitem layer_threshold i ;;
  let soil_layer := set_where_le lo soil_layer in
  let soil_layer := map (fun x => x - lo) soil_layer in
  Ok soil_layer.

Definition soil_depth_layers (soil_depth : list float) (nlayers : nat)
    (layer_threshold : list float) : result (list (list float)) :=
  mapM (soil_layer soil_depth layer_threshold) (seq 0 nlayers).

Definition asarray2 (rows : list (list float)) : result (list (list float)) :=
  match rows with
  | [] => Ok []
  | r :: rs =>
      if forallb (fun r' => Nat.eqb (length r') (length r)) rs
      then Ok rows
      else Raise ValueError
  end.

Definition mul2 (a b : list (list float)) : result (list (list float)) :=
  a' <- asarray2 a ;;
  mapM (fun p => map2 mul (fst p) (snd p)) (combine a' b).

(** The eight running sums take the values in blocks of eight. *)
Fixpoint add_blocks (fuel : nat) (r rest : list float)
    : list float * list float :=
  match fuel with
  | O => (r, rest)
  | S fuel' =>
      if Nat.leb 8 (length rest)
      then add_blocks fuel' (zip_with add r (firstn 8 rest)) (skipn 8 rest)
      else (r, rest)
  end.

Definition sum8 (r : list float) : float :=
  match r with
  | [r0; r1; r2; r3; r4; r5; r6; r7] =>
      ((r0 + r1) + (r2 + r3)) + ((r4 + r5) + (r6 + r7))
  | _ => 0
  end.

(** numpy's pairwise sum of contiguous values; [fuel] bounds the halvings. *)
Fixpoint pairwise_sum (fuel : nat) (a : list float) : float :=
  let n := length a in
  if Nat.ltb n 8 then fold_left add a 0
  else if Nat.leb n 128 then
    let '(r, rest) := add_blocks n (firstn 8 a) (skipn 8 a) in
    fold_left add rest (sum8 r)
  else
    match fuel with
    | O => 0
    | S fuel' =>
        let n2 := Nat.div n 2 in
        let n2 := Nat.sub n2 (Nat.modulo n2 8) in
        pairwise_sum fuel' (firstn n2 a) + pairwise_sum fuel' (skipn n2 a)
    end.

Definition sum_axis0 (c : nat) (rows : list (list float)) : list float :=
  if Nat.eqb c 1
  then [0 + pairwise_sum (length rows) (map (fun row => hd 0 row) rows)]
  else fold_left (zip_with add) rows (repeat 0 c).

Definition cal_subsurface_flow_depth (soil_depth : list float)
    (soil_water_layer : list (list float)) (layer_threshold : list float)
    (porosity : float) : result (list float) :=
  soil_depth_layer <-
    soil_depth_layers soil_depth (length soil_water_layer) layer_threshold ;;
  product <- mul2 soil_water_layer soil_depth_layer ;;
  let water_depth_layer := map (map (fun x => x / porosity)) product in
  let subsurface_flow_depth :=
    sum_axis0 (ncols (length soil_depth) water_depth_layer) water_depth_layer in
  Ok subsurface_flow_depth.

End B64.

(** ** Lists, results and broadcasting *)

Lemma mapM_Forall2 {A B : Type} (f : A -> result B) (xs : list A) (ys : list B) :
  mapM f xs = Ok ys <-> Forall2 (fun x y => f x = Ok y) xs ys.
Proof.
  revert ys; induction xs as [|x xs IH]; intros ys; simpl.
  - split.
    + intros H; inversion H; constructor.
    + intros H; inversion H; reflexivity.
  - split.
    + destruct (f x) as [y|e] eqn:Hx; simpl; [|discriminate].
      destruct (mapM f xs) as [zs|e] eqn:Hxs; simpl; [|discriminate].
      intros H; inversion H; subst.
      constructor; [assumption | apply IH; reflexivity].
    + intros H; inversion H as [|? y ? zs Hx Hrest]; subst.
      rewrite Hx; simpl.
      apply IH in Hrest; rewrite Hrest; reflexivity.
Qed.

Lemma mapM_map {A B C : Type} (g : A -> B) (f : B -> result C) (xs : list A) :
  mapM f (map g xs) = mapM (fun x => f (g x)) xs.
Proof.
  induction xs as [|x xs IH]; simpl; [reflexivity|].
  rewrite IH; reflexivity.
Qed.

Lemma mapM_ext_in {A B : Type} (f g : A -> result B) (xs : list A) :
  (forall x, In x xs -> f x = g x) -> mapM f xs = mapM g xs.
Proof.
  induction xs as [|x xs IH]; simpl; intros H; [reflexivity|].
  rewrite (H x) by (left; reflexivity).
  rewrite IH by (intros y Hy; apply H; right; exact Hy).
  reflexivity.
Qed.

Lemma zip_with_length {A B C : Type} (f : A -> B -> C) (xs : list A) (ys : list B) :
  length (zip_with f xs ys) = Nat.min (length xs) (length ys).
Proof.
  revert ys; induction xs as [|x xs IH]; intros [|y ys]; simpl; auto.
Qed.

Lemma zip_with_nth {A B C : Type} (f : A -> B -> C) (dA : A) (dB : B) (dC : C)
    (xs : list A) (ys : list B) (j : nat) :
  (j < length xs)%nat -> (j < length ys)%nat ->
  nth j (zip_with f xs ys) dC = f (nth j xs dA) (nth j ys dB).
Proof.
  revert ys j; induction xs as [|x xs IH]; intros [|y ys] [|j]; simpl;
    intros H1 H2; try lia; [reflexivity|].
  apply IH; lia.
Qed.

Lemma broadcast_to_length {A : Type} (c : nat) (xs : list A) :
  length xs = c \/ length xs = 1%nat -> length (broadcast_to c xs) = c.
Proof.
  destruct xs as [|x [|y xs]]; simpl; intros [H|H]; try lia.
  - now rewrite repeat_length.
  - now rewrite repeat_length.
Qed.

Lemma broadcast_to_same {A : Type} (xs : list A) :
  broadcast_to (length xs) xs = xs.
Proof.
  destruct xs as [|x [|y xs]]; reflexivity.
Qed.

Lemma broadcast_to_map {A B : Type} (f : A -> B) (c : nat) (xs : list A) :
  broadcast_to c (map f xs) = map f (broadcast_to c xs).
Proof.
  destruct xs as [|x [|y xs]]; simpl; try reflexivity.
  symmetry; apply map_repeat.
Qed.

Lemma broadcast_shape_cases (n m c : nat) :
  broadcast_shape n m = Ok c ->
  (n = c \/ n = 1%nat) /\ (m = c \/ m = 1%nat).
Proof.
  unfold broadcast_shape.
  destruct (Nat.eqb_spec n m); [intros H; inversion H; subst; auto|].
  destruct (Nat.eqb_spec n 1); [intros H; inversion H; subst; auto|].
  destruct (Nat.eqb_spec m 1); [intros H; inversion H; subst; auto|].
  discriminate.
Qed.

Lemma broadcast_shape_same (n : nat) : broadcast_shape n n = Ok n.
Proof.
  unfold broadcast_shape; now rewrite Nat.eqb_refl.
Qed.

Lemma map2_Ok {A B C : Type} (f : A -> B -> C) (xs : list A) (ys : list B)
    (r : list C) :
  map2 f xs ys = Ok r ->
  exists c, broadcast_shape (length xs) (length ys) = Ok c /\
            r = zip_with f (broadcast_to c xs) (broadcast_to c ys) /\
            length r = c.
Proof.
  unfold map2.
  destruct (broadcast_shape (length xs) (length ys)) as [c|e] eqn:Hc; simpl;
    [|discriminate].
  intros H; inversion H; subst; exists c; split; [reflexivity|split; [reflexivity|]].
  apply broadcast_shape_cases in Hc as [Hx Hy].
  rewrite zip_with_length, !broadcast_to_length by assumption.
  apply Nat.min_id.
Qed.

Lemma map2_same_shape {A B C : Type} (f : A -> B -> C) (xs : list A) (ys : list B) :
  length xs = length ys -> map2 f xs ys = Ok (zip_with f xs ys).
Proof.
  intros H; unfold map2.
  rewrite H, broadcast_shape_same; simpl.
  rewrite <- H at 1; rewrite !broadcast_to_same; reflexivity.
Qed.

(** ** The layer loop *)

Lemma getitem_Some (l : list R) (i : nat) (x : R) :
  nth_error l i = Some x -> getitem l i = Ok x.
Proof. unfold getitem; intros ->; reflexivity. Qed.

Lemma getitem_out_of_range (l : list R) (i : nat) :
  (length l <= i)%nat -> getitem l i = Raise IndexError.
Proof.
  unfold getitem; intros H.
  apply nth_error_None in H; rewrite H; reflexivity.
Qed.

Lemma clip_cell_masks (lo hi : R) (soil_depth : raster) :
  map (fun x => x - lo) (set_where_le lo (set_where_ge hi soil_depth))
  = map (clip_cell lo hi) soil_depth.
Proof.
  unfold set_where_le, set_where_ge; rewrite !map_map; reflexivity.
Qed.

Lemma soil_layer_in_range (soil_depth : raster) (thr : list R) (i : nat) (lo hi : R) :
  nth_error thr i = Some lo -> nth_error thr (S i) = Some hi ->
  soil_layer soil_depth thr i = Ok (map (clip_cell lo hi) soil_depth).
Proof.
  intros Hlo Hhi; unfold soil_layer.
  rewrite Nat.add_1_r, (getitem_Some _ _ _ Hhi); simpl.
  rewrite (getitem_Some _ _ _ Hlo); simpl.
  now rewrite clip_cell_masks.
Qed.

Lemma soil_layer_out_of_range (soil_depth : raster) (thr : list R) (i : nat) :
  (length thr <= i + 1)%nat -> soil_layer soil_depth thr i = Raise IndexError.
Proof.
  intros H; unfold soil_layer.
  now rewrite getitem_out_of_range.
Qed.

Lemma soil_layer_tl (soil_depth : raster) (thr : list R) (i : nat) :
  soil_layer soil_depth thr (S i) = soil_layer soil_depth (tl thr) i.
Proof.
  unfold soil_layer, getitem; destruct thr as [|a thr]; simpl.
  - now rewrite !nth_error_nil.
  - reflexivity.
Qed.

Lemma soil_depth_layers_S (soil_depth : raster) (n : nat) (thr : list R) :
  soil_depth_layers soil_depth (S n) thr =
  (row <- soil_layer soil_depth thr 0 ;;
   rest <- soil_depth_layers soil_depth n (tl thr) ;;
   Ok (row :: rest)).
Proof.
  unfold soil_depth_layers.
  rewrite <- cons_seq, <- seq_shift; simpl.
  rewrite mapM_map.
  rewrite (mapM_ext_in _ (soil_layer soil_depth (tl thr)));
    [reflexivity | intros i _; apply soil_layer_tl].
Qed.

(** The rows the loop builds when every index is in range. *)
Lemma soil_depth_layers_in_range (soil_depth : raster) (n : nat) (thr : list R) :
  (n < length thr)%nat ->
  exists rows,
    soil_depth_layers soil_depth n thr = Ok rows /\
    length rows = n /\
    forall i lo hi, (i < n)%nat ->
      nth_error thr i = Some lo -> nth_error thr (S i) = Some hi ->
      nth_error rows i = Some (map (clip_cell lo hi) soil_depth).
Proof.
  revert thr; induction n as [|n IH]; intros thr Hlen.
  - exists []; repeat split; intros; lia.
  - destruct thr as [|lo [|hi thr]]; simpl in Hlen; try lia.
    destruct (IH (hi :: thr)) as (rest & Hrest & Hn & Hrows); [simpl; lia|].
    exists (map (clip_cell lo hi) soil_depth :: rest).
    rewrite soil_depth_layers_S.
    rewrite (soil_layer_in_range _ _ 0 lo hi) by reflexivity; simpl.
    rewrite Hrest; simpl.
    repeat split; [now rewrite Hn|].
    intros [|i] lo' hi' Hi Hlo Hhi.
    + simpl in Hlo, Hhi; inversion Hlo; inversion Hhi; reflexivity.
    + simpl; apply Hrows; [lia | exact Hlo | exact Hhi].
Qed.

(** A non-empty moisture stack with at least as many layers as there are
    thresholds sends the loop out of the threshold list. *)
Lemma soil_depth_layers_out_of_range (soil_depth : raster) (n : nat) (thr : list R) :
  (0 < n)%nat -> (length thr <= n)%nat ->
  soil_depth_layers soil_depth n thr = Raise IndexError.
Proof.
  revert thr; induction n as [|n IH]; intros thr Hpos Hlen; [lia|].
  rewrite soil_depth_layers_S.
  destruct thr as [|lo [|hi thr]].
  - rewrite soil_layer_out_of_range by (simpl; lia); reflexivity.
  - rewrite soil_layer_out_of_range by (simpl; lia); reflexivity.
  - rewrite (soil_layer_in_range _ _ 0 lo hi) by reflexivity; simpl.
    rewrite IH; [reflexivity| simpl in Hlen; lia | simpl in *; lia].
Qed.

Lemma soil_depth_layers_Ok_inv (soil_depth : raster) (n : nat) (thr : list R)
    (rows : list raster) :
  soil_depth_layers soil_depth n thr = Ok rows ->
  n = 0%nat \/ (n < length thr)%nat.
Proof.
  intros H.
  destruct (Nat.eq_dec n 0) as [|Hn]; [now left|right].
  destruct (Nat.lt_ge_cases n (length thr)) as [|Hge]; [assumption|].
  rewrite soil_depth_layers_out_of_range in H by lia; discriminate.
Qed.

(** ** The product with the moisture stack and the sum over the layers *)

Lemma nth_map_lt {A B : Type} (f : A -> B) (l : list A) (dA : A) (dB : B) (j : nat) :
  (j < length l)%nat -> nth j (map f l) dB = f (nth j l dA).
Proof.
  intros H.
  rewrite (nth_indep (map f l) dB (f dA)) by now rewrite length_map.
  apply map_nth.
Qed.

Lemma fold_zip_fadd (c j : nat) (rows : list farray) :
  Forall (fun row => length row = c) rows -> (j < c)%nat ->
  forall acc, length acc = c ->
    length (fold_left (zip_with fadd) rows acc) = c /\
    nth j (fold_left (zip_with fadd) rows acc) NonFinite =
    fold_left fadd (map (fun row => nth j row NonFinite) rows) (nth j acc NonFinite).
Proof.
  intros Hrows Hj; induction Hrows as [|row rows Hrow _ IH]; intros acc Hacc; simpl.
  - split; [assumption | reflexivity].
  - destruct (IH (zip_with fadd acc row)) as [Hlen Hnth].
    + rewrite zip_with_length, Hacc, Hrow; apply Nat.min_id.
    + split; [assumption|].
      rewrite Hnth.
      rewrite (zip_with_nth fadd NonFinite NonFinite) by lia.
      reflexivity.
Qed.

Lemma sum_axis0_length (c : nat) (rows : list farray) :
  Forall (fun row => length row = c) rows -> length (sum_axis0 c rows) = c.
Proof.
  unfold sum_axis0; revert rows.
  assert (G : forall rows acc, length acc = c ->
                Forall (fun row => length row = c) rows ->
                length (fold_left (zip_with fadd) rows acc) = c).
  { induction rows as [|row rows IH]; intros acc Hacc Hrows; simpl; [assumption|].
    inversion Hrows as [|? ? Hrow Hrest].
    apply IH; [|assumption].
    rewrite zip_with_length, Hacc, Hrow; apply Nat.min_id. }
  intros rows Hrows; apply G; [apply repeat_length | assumption].
Qed.

Lemma sum_axis0_nth (c j : nat) (rows : list farray) :
  Forall (fun row => length row = c) rows -> (j < c)%nat ->
  nth j (sum_axis0 c rows) NonFinite =
  fold_left fadd (map (fun row => nth j row NonFinite) rows) (Finite 0).
Proof.
  intros Hrows Hj; unfold sum_axis0.
  destruct (fold_zip_fadd c j rows Hrows Hj (repeat (Finite 0) c)) as [_ H];
    [apply repeat_length|].
  rewrite H, nth_repeat_lt by assumption; reflexivity.
Qed.

Lemma cell_map {A B : Type} (f : A -> B) (dA : A) (dB : B) (c : nat) (xs : list A)
    (j : nat) :
  (j < c)%nat -> (length xs = c \/ length xs = 1%nat) ->
  cell dB c (map f xs) j = f (cell dA c xs j).
Proof.
  intros Hj Hlen; unfold cell.
  rewrite broadcast_to_map.
  apply nth_map_lt.
  now rewrite broadcast_to_length.
Qed.

Lemma cell_same_shape {A : Type} (d : A) (xs : list A) (j : nat) :
  cell d (length xs) xs j = nth j xs d.
Proof. unfold cell; now rewrite broadcast_to_same. Qed.

Lemma map2_cell {A B C : Type} (f : A -> B -> C) (dA : A) (dB : B) (dC : C)
    (xs : list A) (ys : list B) (r : list C) (j : nat) :
  map2 f xs ys = Ok r -> (j < length r)%nat ->
  nth j r dC = f (cell dA (length r) xs j) (cell dB (length r) ys j).
Proof.
  intros H Hj.
  apply map2_Ok in H as (c & Hc & Hr & Hlen).
  rewrite Hlen in *; subst r.
  apply broadcast_shape_cases in Hc as [Hx Hy].
  unfold cell; apply zip_with_nth; now rewrite broadcast_to_length.
Qed.

(** What the rows of the product hold at cell [j]. *)
Lemma product_rows (soil_depth : raster) (c : nat) (swl : list raster) :
  Forall (fun row => broadcast_shape (length row) (length soil_depth) = Ok c) swl ->
  forall thr sdl prod,
    soil_depth_layers soil_depth (length swl) thr = Ok sdl ->
    mapM (fun p => map2 Rmult (fst p) (snd p)) (combine swl sdl) = Ok prod ->
    Forall (fun row => length row = c) prod /\
    forall j, (j < c)%nat ->
      map (fun row => nth j row 0) prod =
      layer_water (cell 0 c soil_depth j) (column c swl j) thr.
Proof.
  induction 1 as [|row swl Hrow Hswl IH]; intros thr sdl prod Hsdl Hprod.
  - simpl in Hsdl; inversion Hsdl; subst; simpl in Hprod; inversion Hprod; subst.
    split; [constructor | reflexivity].
  - simpl length in Hsdl; rewrite soil_depth_layers_S in Hsdl.
    destruct thr as [|lo [|hi thr]];
      try (rewrite soil_layer_out_of_range in Hsdl by (simpl; lia); discriminate).
    rewrite (soil_layer_in_range _ _ 0 lo hi) in Hsdl by reflexivity.
    cbn [bind tl] in Hsdl.
    match type of Hsdl with
    | context [soil_depth_layers ?a ?n ?t] =>
        destruct (soil_depth_layers a n t) as [rest|e] eqn:Hrest
    end; cbn [bind] in Hsdl; [|discriminate].
    inversion Hsdl; subst sdl; clear Hsdl.
    simpl in Hprod.
    destruct (map2 Rmult row (map (clip_cell lo hi) soil_depth))
      as [prow|e] eqn:Hprow; cbn [bind] in Hprod; [|discriminate].
    match type of Hprod with
    | context [mapM ?f ?l] => destruct (mapM f l) as [prest|e] eqn:Hprest
    end; cbn [bind] in Hprod; [|discriminate].
    inversion Hprod; subst prod; clear Hprod.
    destruct (IH _ _ _ Hrest Hprest) as [Hlens Hcols].
    assert (Hlen : length prow = c).
    { apply map2_Ok in Hprow as (c' & Hc' & _ & Hl).
      rewrite length_map, Hrow in Hc'; inversion Hc'; congruence. }
    split; [constructor; assumption|].
    intros j Hj; simpl.
    rewrite Hcols by assumption.
    rewrite (map2_cell Rmult 0 0 0 _ _ _ j Hprow) by lia.
    rewrite Hlen.
    apply broadcast_shape_cases in Hrow as [_ Hsd].
    rewrite (cell_map (clip_cell lo hi) 0 0) by assumption.
    reflexivity.
Qed.

Lemma asarray2_Ok (rows rows' : list raster) :
  asarray2 rows = Ok rows' ->
  rows' = rows /\
  forall r rs, rows = r :: rs -> Forall (fun r' => length r' = length r) rows.
Proof.
  destruct rows as [|r rs]; simpl.
  - intros H; inversion H; split; [reflexivity | discriminate].
  - destruct (forallb _ rs) eqn:Hall; [|discriminate].
    intros H; inversion H; split; [reflexivity|].
    intros r0 rs0 E; inversion E; subst.
    constructor; [reflexivity|].
    rewrite forallb_forall in Hall.
    apply Forall_forall; intros x Hx.
    now apply Nat.eqb_eq, Hall.
Qed.

Lemma asarray2_uniform (m : nat) (rows : list raster) :
  Forall (fun r => length r = m) rows -> asarray2 rows = Ok rows.
Proof.
  destruct rows as [|r rs]; simpl; [reflexivity|].
  intros H; inversion H as [|? ? Hr Hrs]; subst.
  replace (forallb _ rs) with true; [reflexivity|].
  symmetry; apply forallb_forall.
  rewrite Forall_forall in Hrs; intros x Hx.
  now apply Nat.eqb_eq, Hrs.
Qed.

Lemma water_rows_nth (porosity : R) (c j : nat) (prod : list raster) :
  Forall (fun row => length row = c) prod -> (j < c)%nat ->
  map (fun row => nth j row NonFinite)
      (map (map (fun x => fdiv (Finite x) porosity)) prod) =
  map (fun w => fdiv (Finite w) porosity) (map (fun row => nth j row 0) prod).
Proof.
  intros Hrows Hj; rewrite !map_map.
  apply map_ext_in; intros row Hrow.
  rewrite Forall_forall in Hrows.
  rewrite (nth_map_lt (fun x => fdiv (Finite x) porosity) row 0 NonFinite);
    [reflexivity | rewrite (Hrows row Hrow); exact Hj].
Qed.

(** *** The value of every cell of a returned raster *)

Lemma cal_subsurface_flow_depth_cells (soil_depth : raster)
    (soil_water_layer : list raster) (layer_threshold : list R) (porosity : R)
    (r : farray) :
  cal_subsurface_flow_depth soil_depth soil_water_layer layer_threshold porosity
  = Ok r ->
  (soil_water_layer = [] \/
   (length soil_water_layer < length layer_threshold)%nat) /\
  (soil_water_layer = [] -> length r = length soil_depth) /\
  Forall (fun row => broadcast_shape (length row) (length soil_depth)
                     = Ok (length r)) soil_water_layer /\
  forall j, (j < length r)%nat ->
    nth j r NonFinite =
    cell_flow (cell 0 (length r) soil_depth j)
              (column (length r) soil_water_layer j) layer_threshold porosity.
Proof.
  unfold cal_subsurface_flow_depth; intros H.
  destruct (soil_depth_layers _ _ _) as [sdl|e] eqn:Hsdl; cbn [bind] in H;
    [|discriminate].
  destruct (mul2 _ _) as [prod|e] eqn:Hprod; cbn [bind] in H; [|discriminate].
  match type of H with
  | Ok ?x = Ok _ => assert (Hr : x = r) by congruence
  end; subst r; clear H.
  unfold mul2 in Hprod.
  destruct (asarray2 _) as [swl'|e] eqn:Harr; cbn [bind] in Hprod; [|discriminate].
  apply asarray2_Ok in Harr as [-> Hunif].
  split.
  { apply soil_depth_layers_Ok_inv in Hsdl as [H0|Hlt]; [left|now right].
    now apply length_zero_iff_nil. }
  destruct soil_water_layer as [|row0 swl].
  - simpl in Hsdl; inversion Hsdl; subst sdl.
    simpl in Hprod; inversion Hprod; subst prod; simpl.
    unfold sum_axis0; simpl; rewrite repeat_length.
    repeat split; [constructor|].
    intros j Hj; rewrite nth_repeat_lt by assumption; reflexivity.
  - specialize (Hunif _ _ eq_refl).
    set (stack := row0 :: swl) in *.
    assert (Hc : exists c,
               Forall (fun row => broadcast_shape (length row) (length soil_depth)
                                  = Ok c) stack).
    { subst stack; simpl length in Hsdl; rewrite soil_depth_layers_S in Hsdl.
      destruct (soil_layer _ _ 0) as [srow|e] eqn:Hsrow; cbn [bind] in Hsdl;
        [|discriminate].
      match type of Hsdl with
      | context [soil_depth_layers ?a ?n ?t] =>
          destruct (soil_depth_layers a n t) as [rest|e] eqn:Hrest
      end; cbn [bind] in Hsdl; [|discriminate].
      inversion Hsdl; subst sdl.
      simpl in Hprod.
      destruct (map2 Rmult row0 srow) as [prow|e] eqn:Hprow; [|discriminate].
      apply map2_Ok in Hprow as (c & Hc & _ & _).
      assert (Hs : length srow = length soil_depth).
      { unfold soil_layer in Hsrow.
        destruct (getitem _ _) as [hi|e]; cbn [bind] in Hsrow; [|discriminate].
        destruct (getitem _ _) as [lo|e]; cbn [bind] in Hsrow; [|discriminate].
        inversion Hsrow; unfold set_where_le, set_where_ge.
        now rewrite !length_map. }
      exists c; rewrite Hs in Hc.
      eapply Forall_impl; [|exact Hunif].
      intros row Hrow; simpl in Hrow; now rewrite Hrow. }
    destruct Hc as [c Hc].
    destruct (product_rows soil_depth c stack Hc _ _ _ Hsdl Hprod) as [Hlens Hcols].
    assert (Hwater : Forall (fun row => length row = c)
                       (map (map (fun x => fdiv (Finite x) porosity)) prod)).
    { apply Forall_map; eapply Forall_impl; [|exact Hlens].
      intros row Hrow; simpl; now rewrite length_map. }
    assert (Hn : ncols (length soil_depth)
                   (map (map (fun x => fdiv (Finite x) porosity)) prod) = c).
    { destruct prod as [|p ps].
      - exfalso. apply mapM_Forall2 in Hprod. apply Forall2_length in Hprod.
        apply mapM_Forall2, Forall2_length in Hsdl.
        rewrite length_combine, <- Hsdl, length_seq in Hprod.
        subst stack; simpl in Hprod; lia.
      - simpl; rewrite length_map. now inversion Hlens. }
    rewrite Hn.
    assert (Hlen : length (sum_axis0 c
                     (map (map (fun x => fdiv (Finite x) porosity)) prod)) = c)
      by now apply sum_axis0_length.
    rewrite Hlen.
    split; [subst stack; discriminate|].
    split; [exact Hc|].
    intros j Hj.
    rewrite sum_axis0_nth by assumption.
    rewrite (water_rows_nth porosity c j prod Hlens Hj).
    rewrite Hcols by assumption.
    reflexivity.
Qed.

(** *** When the function returns *)

Lemma soil_layer_length (soil_depth : raster) (thr : list R) (i : nat) (row : raster) :
  soil_layer soil_depth thr i = Ok row -> length row = length soil_depth.
Proof.
  unfold soil_layer; intros H.
  destruct (getitem _ _) as [hi|e]; cbn [bind] in H; [|discriminate].
  destruct (getitem _ _) as [lo|e]; cbn [bind] in H; [|discriminate].
  injection H as <-; unfold set_where_le, set_where_ge.
  now rewrite !length_map.
Qed.

Lemma soil_depth_layers_lengths (soil_depth : raster) (n : nat) (thr : list R)
    (rows : list raster) :
  soil_depth_layers soil_depth n thr = Ok rows ->
  length rows = n /\ Forall (fun row => length row = length soil_depth) rows.
Proof.
  unfold soil_depth_layers; intros H.
  apply mapM_Forall2 in H; split.
  - apply Forall2_length in H; now rewrite length_seq in H.
  - induction H as [|i row idxs rows Hrow _ IH]; constructor; [|assumption].
    eapply soil_layer_length; exact Hrow.
Qed.

Lemma mapM_total {A B : Type} (f : A -> result B) (xs : list A) :
  Forall (fun x => exists y, f x = Ok y) xs -> exists ys, mapM f xs = Ok ys.
Proof.
  induction 1 as [|x xs [y Hy] _ [ys Hys]]; simpl.
  - now exists [].
  - exists (y :: ys); now rewrite Hy, Hys.
Qed.

Lemma map2_total {A B C : Type} (f : A -> B -> C) (xs : list A) (ys : list B) (c : nat) :
  broadcast_shape (length xs) (length ys) = Ok c -> exists r, map2 f xs ys = Ok r.
Proof.
  intros H; unfold map2; rewrite H; simpl; eauto.
Qed.

Lemma Forall_combine {A B : Type} (P : A -> Prop) (Q : B -> Prop)
    (xs : list A) (ys : list B) :
  Forall P xs -> Forall Q ys -> Forall (fun p => P (fst p) /\ Q (snd p)) (combine xs ys).
Proof.
  intros HP; revert ys; induction HP as [|x xs Hx _ IH]; intros ys HQ; simpl;
    [constructor|].
  destruct HQ as [|y ys Hy HQ]; constructor; [now split | now apply IH].
Qed.

Lemma same_shape_broadcastable (soil_depth : raster) (swl : list raster) :
  same_shape soil_depth swl -> broadcastable soil_depth swl.
Proof.
  intros H; exists (length soil_depth), (length soil_depth); split;
    [exact H | apply broadcast_shape_same].
Qed.

Lemma cal_subsurface_flow_depth_returns (soil_depth : raster)
    (swl : list raster) (thr : list R) (porosity : R) :
  swl = [] \/ (length swl < length thr)%nat ->
  broadcastable soil_depth swl ->
  exists r, cal_subsurface_flow_depth soil_depth swl thr porosity = Ok r.
Proof.
  intros Hlen (m & c & Hm & Hc).
  unfold cal_subsurface_flow_depth.
  assert (Hsdl : exists sdl, soil_depth_layers soil_depth (length swl) thr = Ok sdl).
  { destruct Hlen as [->|Hlt]; [now exists []|].
    destruct (soil_depth_layers_in_range soil_depth _ thr Hlt) as (rows & H & _).
    now exists rows. }
  destruct Hsdl as [sdl Hsdl]; rewrite Hsdl; cbn [bind].
  apply soil_depth_layers_lengths in Hsdl as [_ Hrows].
  unfold mul2; rewrite (asarray2_uniform m) by assumption; cbn [bind].
  destruct (mapM_total (fun p => map2 Rmult (fst p) (snd p)) (combine swl sdl))
    as [prod Hprod].
  { eapply Forall_impl; [|exact (Forall_combine _ _ _ _ Hm Hrows)].
    intros [row srow] [H1 H2]; simpl in *.
    apply (map2_total _ _ _ c); now rewrite H1, H2. }
  rewrite Hprod; cbn [bind]; eauto.
Qed.

Lemma cal_subsurface_flow_depth_shapes (soil_depth : raster)
    (swl : list raster) (thr : list R) (porosity : R) (r : farray) :
  cal_subsurface_flow_depth soil_depth swl thr porosity = Ok r ->
  broadcastable soil_depth swl.
Proof.
  intros H.
  pose proof (cal_subsurface_flow_depth_cells _ _ _ _ _ H) as (_ & _ & Hc & _).
  unfold cal_subsurface_flow_depth in H.
  destruct (soil_depth_layers _ _ _) as [sdl|e]; cbn [bind] in H; [|discriminate].
  unfold mul2 in H.
  destruct (asarray2 swl) as [swl'|e] eqn:Harr; cbn [bind] in H; [|discriminate].
  apply asarray2_Ok in Harr as [_ Hunif].
  destruct swl as [|row swl].
  - exists (length soil_depth), (length soil_depth); split; [constructor|].
    apply broadcast_shape_same.
  - exists (length row), (length r); split; [now apply (Hunif row swl)|].
    now inversion Hc.
Qed.

Lemma cal_subsurface_flow_depth_same_shape (soil_depth : raster)
    (swl : list raster) (thr : list R) (porosity : R) :
  swl = [] \/ (length swl < length thr)%nat ->
  same_shape soil_depth swl ->
  exists r,
    cal_subsurface_flow_depth soil_depth swl thr porosity = Ok r /\
    length r = length soil_depth /\
    forall j, (j < length soil_depth)%nat ->
      nth j r NonFinite =
      cell_flow (nth j soil_depth 0) (map (fun row => nth j row 0) swl) thr porosity.
Proof.
  intros Hlen Hshape.
  destruct (cal_subsurface_flow_depth_returns soil_depth swl thr porosity Hlen
              (same_shape_broadcastable _ _ Hshape)) as [r Hr].
  exists r; split; [exact Hr|].
  destruct (cal_subsurface_flow_depth_cells _ _ _ _ _ Hr) as (_ & Hnil & Hc & Hcells).
  assert (Hn : length r = length soil_depth).
  { destruct swl as [|row swl]; [now apply Hnil|].
    inversion Hc as [|? ? Hrow _]; inversion Hshape as [|? ? Hrow' _]; subst.
    rewrite Hrow', broadcast_shape_same in Hrow; congruence. }
  split; [exact Hn|].
  intros j Hj; rewrite Hcells by lia.
  rewrite Hn, cell_same_shape.
  f_equal; unfold column.
  apply map_ext_in; intros row Hrow.
  unfold same_shape in Hshape; rewrite Forall_forall in Hshape.
  rewrite <- (Hshape row Hrow); apply cell_same_shape.
Qed.

(** ** Arithmetic at one cell *)

Ltac case_clip :=
  unfold clip_cell;
  repeat match goal with
         | |- context [Rge_dec ?a ?b] => destruct (Rge_dec a b)
         | |- context [Rle_dec ?a ?b] => destruct (Rle_dec a b)
         end.

Lemma clip_cell_nonneg (lo hi x : R) : 0 <= clip_cell lo hi x.
Proof. case_clip; lra. Qed.

Lemma clip_cell_le_width (lo hi x : R) : lo <= hi -> clip_cell lo hi x <= hi - lo.
Proof. intros H; case_clip; lra. Qed.

Lemma clip_cell_below (lo hi x : R) : x <= lo -> clip_cell lo hi x = 0.
Proof. intros H; case_clip; lra. Qed.

Lemma clip_cell_above (lo hi x : R) : lo <= hi -> hi <= x -> clip_cell lo hi x = hi - lo.
Proof. intros H1 H2; case_clip; lra. Qed.

Lemma clip_cell_inside (lo hi x : R) : lo <= x -> x <= hi -> clip_cell lo hi x = x - lo.
Proof. intros H1 H2; case_clip; lra. Qed.

Lemma fdiv_finite (x d : R) : d <> 0 -> fdiv (Finite x) d = Finite (x / d).
Proof.
  intros Hd; unfold fdiv; destruct (Req_dec_T d 0); [contradiction | reflexivity].
Qed.

Lemma fdiv_zero (a : f64) : fdiv a 0 = NonFinite.
Proof.
  destruct a; [|reflexivity].
  unfold fdiv; destruct (Req_dec_T 0 0); [reflexivity | contradiction].
Qed.

Lemma fold_fadd_finite (p a : R) (ws : list R) :
  p <> 0 ->
  fold_left fadd (map (fun w => fdiv (Finite w) p) ws) (Finite a)
  = Finite (a + Rsum ws / p).
Proof.
  intros Hp; revert a; induction ws as [|w ws IH]; intros a; cbn [map fold_left].
  - f_equal; simpl; lra.
  - rewrite fdiv_finite by assumption; cbn [fadd].
    rewrite IH; f_equal; simpl; field; exact Hp.
Qed.

Lemma cell_flow_finite (s : R) (ms thr : list R) (p : R) :
  p <> 0 -> cell_flow s ms thr p = Finite (Rsum (layer_water s ms thr) / p).
Proof.
  intros Hp; unfold cell_flow; rewrite fold_fadd_finite by assumption.
  f_equal; lra.
Qed.

Lemma fold_fadd_NonFinite (l : list f64) : fold_left fadd l NonFinite = NonFinite.
Proof. induction l as [|a l IH]; simpl; [reflexivity | exact IH]. Qed.

(** With a zero porosity every layer the loop went through gives a
    non-finite water depth. *)
Lemma cell_flow_zero_porosity (s : R) (ms thr : list R) :
  layer_water s ms thr <> [] -> cell_flow s ms thr 0 = NonFinite.
Proof.
  unfold cell_flow; destruct (layer_water s ms thr) as [|w ws]; [congruence|].
  intros _; cbn [map fold_left].
  rewrite fdiv_zero; apply fold_fadd_NonFinite.
Qed.

Lemma layer_water_nonneg (s : R) (ms thr : list R) :
  Forall (fun m => 0 <= m) ms -> 0 <= Rsum (layer_water s ms thr).
Proof.
  intros Hms; revert thr; induction Hms as [|m ms Hm _ IH]; intros thr; simpl;
    [lra|].
  destruct thr as [|lo [|hi thr]]; simpl; try lra.
  pose proof (clip_cell_nonneg lo hi s).
  pose proof (IH (hi :: thr)).
  unfold Rsum in *; nra.
Qed.

(** Raising the moisture of the layers raises the water of the column. *)
Lemma layer_water_monotone (s : R) (ms ms' : list R) :
  Forall2 Rle ms ms' ->
  forall thr, Rsum (layer_water s ms thr) <= Rsum (layer_water s ms' thr).
Proof.
  induction 1 as [|m m' ms ms' Hm _ IH]; intros thr; simpl; [lra|].
  destruct thr as [|lo [|hi thr]]; simpl; try lra.
  pose proof (clip_cell_nonneg lo hi s).
  pose proof (IH (hi :: thr)).
  unfold Rsum in *; nra.
Qed.

(** Below the first threshold of an increasing sequence no layer holds
    any part of the column. *)
Lemma layer_water_below (s : R) (ms : list R) :
  forall thr lo rest, thr = lo :: rest -> strictly_increasing thr -> s <= lo ->
    Rsum (layer_water s ms thr) = 0.
Proof.
  induction ms as [|m ms IH]; intros thr lo rest -> Hinc Hs; simpl; [reflexivity|].
  destruct rest as [|hi rest]; simpl; [reflexivity|].
  destruct Hinc as [Hlt Hinc].
  rewrite (clip_cell_below lo hi s Hs).
  pose proof (IH (hi :: rest) hi rest eq_refl Hinc) as Hrest.
  unfold Rsum in *; rewrite Hrest; lra.
Qed.

(** The layers telescope: with moisture at most 1 the column holds at most
    the depth of soil above the first threshold. *)
Lemma layer_water_le_depth (s : R) (ms : list R) :
  Forall (fun m => 0 <= m <= 1) ms ->
  forall thr lo rest, thr = lo :: rest -> strictly_increasing thr -> lo <= s ->
    Rsum (layer_water s ms thr) <= s - lo.
Proof.
  induction 1 as [|m ms Hm _ IH]; intros thr lo rest -> Hinc Hs; simpl; [lra|].
  destruct rest as [|hi rest]; simpl; [lra|].
  destruct Hinc as [Hlt Hinc].
  pose proof (clip_cell_nonneg lo hi s) as Hnn.
  destruct (Rle_dec hi s) as [Hhi|Hhi].
  - pose proof (IH (hi :: rest) hi rest eq_refl Hinc Hhi) as Hrest.
    rewrite (clip_cell_above lo hi s) by lra.
    unfold Rsum in *; nra.
  - rewrite (layer_water_below s ms (hi :: rest) hi rest eq_refl Hinc) by lra.
    rewrite (clip_cell_inside lo hi s) by lra.
    nra.
Qed.

(** ** Cells of [cal_safety_factor] *)

Lemma cell_singleton {A : Type} (d x : A) (c j : nat) :
  (j < c)%nat -> cell d c [x] j = x.
Proof. intros H; unfold cell; simpl; now apply nth_repeat_lt. Qed.

Lemma map2_cell_fits {A B C : Type} (f : A -> B -> C) (dA : A) (dB : B) (dC : C)
    (xs : list A) (ys : list B) (r : list C) (c j : nat) :
  map2 f xs ys = Ok r -> fits c (length r) -> (j < c)%nat ->
  fits c (length xs) /\ fits c (length ys) /\
  cell dC c r j = f (cell dA c xs j) (cell dB c ys j).
Proof.
  intros H Hfit Hj.
  pose proof (map2_Ok _ _ _ _ H) as (k & Hk & Hr & Hlen).
  pose proof (broadcast_shape_cases _ _ _ Hk) as [Hx Hy].
  destruct Hfit as [Hc|H1].
  - subst c k.
    split; [exact Hx|]; split; [exact Hy|].
    unfold cell at 1; rewrite broadcast_to_same.
    now apply map2_cell.
  - rewrite H1 in Hlen; subst k.
    assert (Hx1 : length xs = 1%nat) by (destruct Hx; assumption).
    assert (Hy1 : length ys = 1%nat) by (destruct Hy; assumption).
    split; [now right|]; split; [now right|].
    destruct xs as [|x [|? ?]]; try discriminate.
    destruct ys as [|y [|? ?]]; try discriminate.
    subst r; simpl.
    now rewrite !cell_singleton.
Qed.

Lemma cell_map_fits {A B : Type} (f : A -> B) (dA : A) (dB : B) (c : nat)
    (xs : list A) (j : nat) :
  (j < c)%nat -> fits c (length xs) -> cell dB c (map f xs) j = f (cell dA c xs j).
Proof. intros Hj Hfit; now apply cell_map. Qed.

Lemma fadd_NonFinite_r (a : f64) : fadd a NonFinite = NonFinite.
Proof. now destruct a. Qed.

Lemma cal_safety_factor_cells (slope_angle : raster) (flow : farray)
    (soil_depth : raster) (rc sc bd wd g fi : R) (r : farray) :
  cal_safety_factor slope_angle flow soil_depth rc sc bd wd g fi = Ok r ->
  fits (length r) (length slope_angle) /\
  fits (length r) (length flow) /\
  fits (length r) (length soil_depth) /\
  forall j, (j < length r)%nat ->
    nth j r NonFinite =
    fs_formula (cell 0 (length r) slope_angle j)
               (cell NonFinite (length r) flow j)
               (cell 0 (length r) soil_depth j) rc sc bd wd g fi.
Proof.
  unfold cal_safety_factor; intros H.
  destruct (map2 fdiv flow soil_depth) as [rw|e] eqn:Hrw; cbn [bind] in H;
    [|discriminate].
  destruct (map2 fdiv (map _ (map _ soil_depth)) _) as [left|e] eqn:Hleft;
    cbn [bind] in H; [|discriminate].
  destruct (map2 fmul _ _) as [fric|e] eqn:Hfric; cbn [bind] in H; [|discriminate].
  destruct (map2 fdiv fric _) as [right|e] eqn:Hright; cbn [bind] in H;
    [|discriminate].
  destruct (map2 fadd left right) as [fs|e] eqn:Hfs; cbn [bind] in H;
    [|discriminate].
  assert (fs = r) by congruence; subst fs; clear H.
  set (c := length r).
  assert (Hc : fits c (length r)) by now left.
  assert (Hall : forall j, (j < c)%nat ->
            fits c (length slope_angle) /\ fits c (length flow) /\
            fits c (length soil_depth) /\
            nth j r NonFinite =
            fs_formula (cell 0 c slope_angle j) (cell NonFinite c flow j)
                       (cell 0 c soil_depth j) rc sc bd wd g fi).
  { intros j Hj.
    destruct (map2_cell_fits fadd NonFinite NonFinite NonFinite _ _ _ c j Hfs Hc Hj)
      as (Hl & Hr & Ecell).
    destruct (map2_cell_fits fdiv NonFinite 0 NonFinite _ _ _ c j Hleft Hl Hj)
      as (Hcoh & Hsin & Eleft).
    destruct (map2_cell_fits fdiv NonFinite 0 NonFinite _ _ _ c j Hright Hr Hj)
      as (Hfr & _ & Eright).
    destruct (map2_cell_fits fmul NonFinite NonFinite NonFinite _ _ _ c j Hfric Hfr Hj)
      as (_ & Hdry & Efric).
    rewrite !length_map in *.
    destruct (map2_cell_fits fdiv NonFinite 0 NonFinite _ _ _ c j Hrw Hdry Hj)
      as (Hflow & _ & Erw).
    repeat (split; [assumption|]).
    unfold cell at 1 in Ecell; unfold c in Ecell at 1.
    rewrite broadcast_to_same in Ecell.
    rewrite Ecell, Eleft, Eright, Efric.
    rewrite (cell_map_fits sin 0 0) by assumption.
    rewrite (cell_map_fits _ 0 NonFinite c (map _ soil_depth))
      by (rewrite ?length_map; assumption).
    rewrite (cell_map_fits _ 0 0) by assumption.
    rewrite (cell_map_fits _ 0 NonFinite c slope_angle) by assumption.
    rewrite (cell_map_fits _ NonFinite NonFinite c rw) by assumption.
    rewrite Erw.
    reflexivity. }
  destruct r as [|x r'].
  - (* no cell: the shapes follow from the operations themselves *)
    clear Hall.
    apply map2_Ok in Hfs as (k & Hk & _ & Hlen); simpl in Hlen; subst k.
    apply broadcast_shape_cases in Hk as [Hl Hr].
    apply map2_Ok in Hleft as (k & Hk & _ & Hlen).
    apply broadcast_shape_cases in Hk as [Hcoh Hsin].
    apply map2_Ok in Hright as (k' & Hk' & _ & Hlen').
    apply broadcast_shape_cases in Hk' as [Hfr _].
    apply map2_Ok in Hfric as (k2 & Hk2 & _ & Hlen2).
    apply broadcast_shape_cases in Hk2 as [_ Hdry].
    apply map2_Ok in Hrw as (k3 & Hk3 & _ & Hlen3).
    apply broadcast_shape_cases in Hk3 as [Hflow _].
    rewrite !length_map in *.
    unfold fits; subst c; simpl.
    repeat split; try lia.
  - destruct (Hall 0%nat) as (H1 & H2 & H3 & _); [subst c; simpl; lia|].
    repeat (split; [assumption|]).
    intros j Hj; now apply Hall.
Qed.

Lemma cal_safety_factor_same_shape (slope_angle : raster) (flow : farray)
    (soil_depth : raster) (rc sc bd wd g fi : R) :
  length flow = length slope_angle -> length soil_depth = length slope_angle ->
  exists r,
    cal_safety_factor slope_angle flow soil_depth rc sc bd wd g fi = Ok r /\
    length r = length slope_angle /\
    forall j, (j < length slope_angle)%nat ->
      nth j r NonFinite =
      fs_formula (nth j slope_angle 0) (nth j flow NonFinite) (nth j soil_depth 0)
                 rc sc bd wd g fi.
Proof.
  intros Hflow Hsd.
  assert (Hret : exists r,
            cal_safety_factor slope_angle flow soil_depth rc sc bd wd g fi = Ok r /\
            length r = length slope_angle).
  { unfold cal_safety_factor.
    rewrite (map2_same_shape fdiv flow soil_depth) by congruence; cbn [bind].
    rewrite map2_same_shape by (rewrite !length_map; congruence); cbn [bind].
    rewrite map2_same_shape
      by (rewrite !length_map, zip_with_length; lia); cbn [bind].
    rewrite map2_same_shape
      by (rewrite !zip_with_length, !length_map, zip_with_length; lia);
      cbn [bind].
    rewrite map2_same_shape
      by (rewrite !zip_with_length, !length_map, zip_with_length; lia);
      cbn [bind].
    eexists; split; [reflexivity|].
    rewrite !zip_with_length, !length_map, zip_with_length; lia. }
  destruct Hret as (r & Hr & Hlen); exists r; split; [exact Hr|]; split; [exact Hlen|].
  destruct (cal_safety_factor_cells _ _ _ _ _ _ _ _ _ _ Hr) as (_ & _ & _ & Hcells).
  intros j Hj; rewrite Hcells by lia.
  rewrite Hlen, cell_same_shape.
  rewrite <- Hflow, cell_same_shape.
  rewrite Hflow, <- Hsd, cell_same_shape.
  reflexivity.
Qed.

(** At a cell where the model is singular the factor of safety is not a
    finite number. *)
Lemma fs_formula_singular (a : R) (hw : f64) (hs rc sc bd wd g fi : R) :
  hs = 0 \/ sin a = 0 -> fs_formula a hw hs rc sc bd wd g fi = NonFinite.
Proof.
  unfold fs_formula; intros [-> | ->].
  - rewrite (fdiv_zero hw); cbn [fmul fdiv fsub].
    apply fadd_NonFinite_r.
  - rewrite !fdiv_zero; reflexivity.
Qed.

Lemma fs_formula_finite (a fd hs rc sc bd wd g fi : R) :
  hs <> 0 -> sin a <> 0 -> bd <> 0 -> g <> 0 ->
  fs_formula a (Finite fd) hs rc sc bd wd g fi =
  Finite ((rc + sc) / (hs * bd * g) / sin a
          + cos a * tan (fi * PI / 180) * (1 - fd / hs * wd / bd) / sin a).
Proof.
  intros Hhs Hsin Hbd Hg; unfold fs_formula.
  assert (hs * bd * g <> 0) by (repeat apply Rmult_integral_contrapositive_currified;
                                assumption).
  repeat (rewrite fdiv_finite by assumption; cbn [fmul fsub fadd]).
  reflexivity.
Qed.

Lemma fs_formula_zero_gravity (a : R) (hw : f64) (hs rc sc bd wd fi : R) :
  fs_formula a hw hs rc sc bd wd 0 fi = NonFinite.
Proof.
  unfold fs_formula.
  replace (hs * bd * 0) with 0 by ring.
  rewrite (fdiv_zero (Finite _)); reflexivity.
Qed.

Lemma friction_angle_tan_pos (fi : R) : 0 < fi < 90 -> 0 < tan (fi * PI / 180).
Proof.
  intros [H0 H90]; pose proof PI_RGT_0.
  apply tan_gt_0; nra.
Qed.

(** The finite factor of safety does not grow with the flow depth. *)
Lemma fs_real_antitone (a hs rc sc bd wd g fi fd1 fd2 : R) :
  0 < hs -> 0 < sin a -> 0 <= cos a -> 0 < bd -> 0 < wd -> 0 < fi < 90 ->
  fd1 <= fd2 ->
  (rc + sc) / (hs * bd * g) / sin a
    + cos a * tan (fi * PI / 180) * (1 - fd2 / hs * wd / bd) / sin a
  <= (rc + sc) / (hs * bd * g) / sin a
    + cos a * tan (fi * PI / 180) * (1 - fd1 / hs * wd / bd) / sin a.
Proof.
  intros Hhs Hsin Hcos Hbd Hwd Hfi Hfd.
  pose proof (friction_angle_tan_pos fi Hfi) as Htan.
  apply Rplus_le_compat_l.
  apply Rmult_le_compat_r; [left; now apply Rinv_0_lt_compat|].
  apply Rmult_le_compat_l; [nra|].
  apply Rplus_le_compat_l, Ropp_le_contravar.
  apply Rmult_le_compat_r; [left; now apply Rinv_0_lt_compat|].
  apply Rmult_le_compat_r; [lra|].
  apply Rmult_le_compat_r; [left; now apply Rinv_0_lt_compat | exact Hfd].
Qed.

Lemma broadcast_shape_result (n m c : nat) :
  broadcast_shape n m = Ok c -> c = n \/ c = m.
Proof.
  unfold broadcast_shape.
  destruct (Nat.eqb n m); [intros H; inversion H; auto|].
  destruct (Nat.eqb n 1); [intros H; inversion H; auto|].
  destruct (Nat.eqb m 1); [intros H; inversion H; auto | discriminate].
Qed.

Lemma map2_length {A B C : Type} (f : A -> B -> C) (xs : list A) (ys : list B)
    (r : list C) :
  map2 f xs ys = Ok r -> length r = length xs \/ length r = length ys.
Proof.
  intros H; apply map2_Ok in H as (c & Hc & _ & Hlen).
  rewrite Hlen; now apply broadcast_shape_result.
Qed.

(** The number of cells of the result is that of one of the rasters. *)
Lemma cal_safety_factor_length (slope_angle : raster) (flow : farray)
    (soil_depth : raster) (rc sc bd wd g fi : R) (r : farray) :
  cal_safety_factor slope_angle flow soil_depth rc sc bd wd g fi = Ok r ->
  length r = length slope_angle \/ length r = length flow \/
  length r = length soil_depth.
Proof.
  unfold cal_safety_factor; intros H.
  destruct (map2 fdiv flow soil_depth) as [rw|e] eqn:Hrw; cbn [bind] in H;
    [|discriminate].
  destruct (map2 fdiv (map _ (map _ soil_depth)) _) as [left|e] eqn:Hleft;
    cbn [bind] in H; [|discriminate].
  destruct (map2 fmul _ _) as [fric|e] eqn:Hfric; cbn [bind] in H; [|discriminate].
  destruct (map2 fdiv fric _) as [right|e] eqn:Hright; cbn [bind] in H;
    [|discriminate].
  destruct (map2 fadd left right) as [fs|e] eqn:Hfs; cbn [bind] in H;
    [|discriminate].
  assert (fs = r) by congruence; subst fs; clear H.
  apply map2_length in Hrw, Hleft, Hfric, Hright, Hfs.
  rewrite !length_map in *.
  lia.
Qed.

Lemma cal_safety_factor_shape_unique (slope_angle : raster) (flow1 flow2 : farray)
    (soil_depth : raster) (rc sc bd wd g fi : R) (r1 r2 : farray) :
  length flow1 = length flow2 ->
  cal_safety_factor slope_angle flow1 soil_depth rc sc bd wd g fi = Ok r1 ->
  cal_safety_factor slope_angle flow2 soil_depth rc sc bd wd g fi = Ok r2 ->
  length r1 = length r2.
Proof.
  intros Hlen H1 H2.
  pose proof (cal_safety_factor_length _ _ _ _ _ _ _ _ _ _ H1) as L1.
  pose proof (cal_safety_factor_length _ _ _ _ _ _ _ _ _ _ H2) as L2.
  destruct (cal_safety_factor_cells _ _ _ _ _ _ _ _ _ _ H1) as (A1 & B1 & C1 & _).
  destruct (cal_safety_factor_cells _ _ _ _ _ _ _ _ _ _ H2) as (A2 & B2 & C2 & _).
  unfold fits in *; lia.
Qed.

(** * The claims about [cal_safety_factor] *)

(** C1.  Whenever [cal_safety_factor] returns, the cell of a finite flow
    depth [fd] where the soil depth is positive and the sine of the slope is
    not zero holds the infinite-slope formula, evaluated in the arithmetic of
    the arrays; when moreover the bulk density and the gravity are not zero
    this is the real number
    [(root_cohesion + soil_cohesion) / (soil_depth * bulk_density * g) / sin slope
     + cos slope * tan (friction * pi / 180)
       * (1 - fd / soil_depth * water_density / bulk_density) / sin slope].
    The relative wetness [fd / soil_depth] enters as it is, for every [fd],
    also above the soil depth.  The function does return when the three
    rasters have one shape. *)
Theorem safety_factor_formula (slope_angle : raster) (flow : farray)
    (soil_depth : raster) (rc sc bd wd g fi : R) :
  (length flow = length slope_angle -> length soil_depth = length slope_angle ->
   exists r, cal_safety_factor slope_angle flow soil_depth rc sc bd wd g fi = Ok r
             /\ length r = length slope_angle) /\
  forall r j fd,
    cal_safety_factor slope_angle flow soil_depth rc sc bd wd g fi = Ok r ->
    (j < length r)%nat ->
    cell NonFinite (length r) flow j = Finite fd ->
    0 < cell 0 (length r) soil_depth j ->
    sin (cell 0 (length r) slope_angle j) <> 0 ->
    let a := cell 0 (length r) slope_angle j in
    let hs := cell 0 (length r) soil_depth j in
    nth j r NonFinite = fs_formula a (Finite fd) hs rc sc bd wd g fi /\
    (bd <> 0 -> g <> 0 ->
     nth j r NonFinite =
     Finite ((rc + sc) / (hs * bd * g) / sin a
             + cos a * tan (fi * PI / 180) * (1 - fd / hs * wd / bd) / sin a)).
Proof.
  split.
  - intros Hflow Hsd.
    destruct (cal_safety_factor_same_shape slope_angle flow soil_depth
                rc sc bd wd g fi Hflow Hsd) as (r & Hr & Hlen & _).
    now exists r.
  - intros r j fd Hr Hj Hfd Hhs Hsin a hs.
    destruct (cal_safety_factor_cells _ _ _ _ _ _ _ _ _ _ Hr) as (_ & _ & _ & Hcells).
    rewrite (Hcells j Hj), Hfd; fold a hs.
    split; [reflexivity|].
    intros Hbd Hg; apply fs_formula_finite; try assumption.
    subst hs; lra.
Qed.

Lemma sin_PI4_neq_0 : sin (PI / 4) <> 0.
Proof.
  pose proof PI_RGT_0.
  assert (0 < sin (PI / 4)) by (apply sin_gt_0; lra).
  lra.
Qed.

Lemma singleton_of_nth {A : Type} (d x : A) (r : list A) :
  length r = 1%nat -> nth 0 r d = x -> r = [x].
Proof.
  destruct r as [|y [|z r]]; simpl; try discriminate.
  intros _ ->; reflexivity.
Qed.

(** The worked example of C1: slope [pi/4], flow depth 0.2, soil depth 1, no
    cohesion, densities 1300 and 1000, gravity 9.806, friction angle 35
    degrees. *)
Lemma safety_factor_worked_example :
  cal_safety_factor [PI / 4] [Finite (2 / 10)] [1] 0 0 1300 1000 (9806 / 1000) 35
  = Ok [Finite (cos (PI / 4) * tan (35 * PI / 180) * (1 - 2 / 10 * 1000 / 1300)
                / sin (PI / 4))].
Proof.
  destruct (safety_factor_formula [PI / 4] [Finite (2 / 10)] [1]
              0 0 1300 1000 (9806 / 1000) 35) as [Hret Hcell].
  destruct (Hret eq_refl eq_refl) as (r & Hr & Hlen).
  rewrite Hr; f_equal.
  apply (singleton_of_nth NonFinite); [exact Hlen|].
  assert (Hj : (0 < length r)%nat) by (rewrite Hlen; simpl; lia).
  destruct (Hcell r 0%nat (2 / 10) Hr Hj) as [_ Hfin].
  - rewrite Hlen; reflexivity.
  - rewrite Hlen; unfold cell; simpl; lra.
  - rewrite Hlen; unfold cell; simpl; exact sin_PI4_neq_0.
  - rewrite Hfin by lra.
    rewrite Hlen; unfold cell; simpl.
    f_equal; field; exact sin_PI4_neq_0.
Defined.

(** A flow depth of twice the soil depth: the relative wetness 2 is used
    as it is, and the factor of safety is negative. *)
Lemma safety_factor_unclamped_example :
  exists fs,
    cal_safety_factor [PI / 4] [Finite 2] [1] 0 0 1300 1000 (9806 / 1000) 35
    = Ok [Finite fs] /\
    fs = cos (PI / 4) * tan (35 * PI / 180) * (1 - 2 / 1 * 1000 / 1300)
         / sin (PI / 4) /\
    fs < 0.
Proof.
  destruct (cal_safety_factor_same_shape [PI / 4] [Finite 2] [1]
              0 0 1300 1000 (9806 / 1000) 35 eq_refl eq_refl)
    as (r & Hr & Hlen & Hcells).
  pose proof PI_RGT_0 as Hpi.
  assert (Hsin : 0 < sin (PI / 4)) by (apply sin_gt_0; lra).
  assert (Hcos : 0 < cos (PI / 4)) by (apply cos_gt_0; lra).
  assert (Htan : 0 < tan (35 * PI / 180)) by (apply friction_angle_tan_pos; lra).
  eexists; split; [|split; [reflexivity|]].
  - rewrite Hr; f_equal.
    apply (singleton_of_nth NonFinite); [exact Hlen|].
    rewrite Hcells by (simpl; lia); simpl nth.
    rewrite fs_formula_finite by lra.
    f_equal; field; lra.
  - replace (cos (PI / 4) * tan (35 * PI / 180) * (1 - 2 / 1 * 1000 / 1300)
             / sin (PI / 4))
      with (- (cos (PI / 4) * tan (35 * PI / 180) * (7 / 13) * / sin (PI / 4)))
      by (field; lra).
    apply Rinv_0_lt_compat in Hsin.
    assert (0 < cos (PI / 4) * tan (35 * PI / 180) * (7 / 13) * / sin (PI / 4))
      by (apply Rmult_lt_0_compat; [|exact Hsin];
          apply Rmult_lt_0_compat; [|lra];
          apply Rmult_lt_0_compat; assumption).
    lra.
Qed.

(** C5, as stated, fails: with a soil depth of 0 at its only cell the
    function raises nothing and returns a raster whose cell is not finite. *)
Lemma safety_factor_zero_soil_depth_returns :
  cal_safety_factor [PI / 4] [Finite (2 / 10)] [0]
                    5000 5000 1300 1000 (9806 / 1000) 35
  = Ok [NonFinite].
Proof.
  destruct (cal_safety_factor_same_shape [PI / 4] [Finite (2 / 10)] [0]
              5000 5000 1300 1000 (9806 / 1000) 35 eq_refl eq_refl)
    as (r & Hr & Hlen & Hcells).
  rewrite Hr; f_equal.
  apply (singleton_of_nth NonFinite); [exact Hlen|].
  rewrite Hcells by (simpl; lia); simpl nth.
  apply fs_formula_singular; now left.
Qed.

(** C5, amended.  [cal_safety_factor] checks nothing and raises no domain
    error: for three rasters of one shape it always returns a raster of that
    shape, and whenever it returns, every cell whose soil depth is 0 or
    whose slope angle is 0 holds a non-finite value (inf or nan). *)
Theorem safety_factor_singular_cells (slope_angle : raster) (flow : farray)
    (soil_depth : raster) (rc sc bd wd g fi : R) :
  (length flow = length slope_angle -> length soil_depth = length slope_angle ->
   exists r, cal_safety_factor slope_angle flow soil_depth rc sc bd wd g fi = Ok r
             /\ length r = length slope_angle) /\
  forall r j,
    cal_safety_factor slope_angle flow soil_depth rc sc bd wd g fi = Ok r ->
    (j < length r)%nat ->
    cell 0 (length r) soil_depth j = 0 \/
    cell 0 (length r) slope_angle j = 0 ->
    nth j r NonFinite = NonFinite.
Proof.
  split.
  - intros Hflow Hsd.
    destruct (cal_safety_factor_same_shape slope_angle flow soil_depth
                rc sc bd wd g fi Hflow Hsd) as (r & Hr & Hlen & _).
    now exists r.
  - intros r j Hr Hj Hsing.
    destruct (cal_safety_factor_cells _ _ _ _ _ _ _ _ _ _ Hr) as (_ & _ & _ & Hcells).
    rewrite (Hcells j Hj).
    apply fs_formula_singular.
    destruct Hsing as [H|H]; [now left | right; rewrite H; exact sin_0].
Qed.

(** A flat cell (slope angle 0) of positive soil depth. *)
Lemma safety_factor_flat_cell :
  cal_safety_factor [0] [Finite (2 / 10)] [1] 5000 5000 1300 1000 (9806 / 1000) 35
  = Ok [NonFinite].
Proof.
  destruct (safety_factor_singular_cells [0] [Finite (2 / 10)] [1]
              5000 5000 1300 1000 (9806 / 1000) 35) as [Hret Hcell].
  destruct (Hret eq_refl eq_refl) as (r & Hr & Hlen).
  rewrite Hr; f_equal.
  apply (singleton_of_nth NonFinite); [exact Hlen|].
  apply Hcell; [exact Hr | rewrite Hlen; simpl; lia |].
  right; rewrite Hlen; reflexivity.
Defined.

(** C9.  Take a cell of positive soil depth whose slope has a positive sine
    and a non-negative cosine, positive bulk and water densities and a
    friction angle between 0 and 90 degrees.  Of two calls that differ in the
    flow depth raster only, the one with the larger finite flow depth at the
    cell never has the larger factor of safety there: with a non-zero gravity
    both values are finite and ordered; with a zero gravity the cohesion
    term, which both share, makes both non-finite. *)
Theorem safety_factor_antitone_in_flow_depth (slope_angle : raster)
    (flow1 flow2 : farray) (soil_depth : raster) (rc sc bd wd g fi : R)
    (r1 r2 : farray) (j : nat) (fd1 fd2 : R) :
  cal_safety_factor slope_angle flow1 soil_depth rc sc bd wd g fi = Ok r1 ->
  cal_safety_factor slope_angle flow2 soil_depth rc sc bd wd g fi = Ok r2 ->
  length flow1 = length flow2 ->
  (j < length r1)%nat ->
  cell NonFinite (length r1) flow1 j = Finite fd1 ->
  cell NonFinite (length r1) flow2 j = Finite fd2 ->
  fd1 <= fd2 ->
  0 < cell 0 (length r1) soil_depth j ->
  0 < sin (cell 0 (length r1) slope_angle j) ->
  0 <= cos (cell 0 (length r1) slope_angle j) ->
  0 < bd -> 0 < wd -> 0 < fi < 90 ->
  length r2 = length r1 /\
  (g <> 0 ->
   exists fs1 fs2, nth j r1 NonFinite = Finite fs1 /\
                   nth j r2 NonFinite = Finite fs2 /\ fs2 <= fs1) /\
  (g = 0 -> nth j r1 NonFinite = NonFinite /\ nth j r2 NonFinite = NonFinite).
Proof.
  intros H1 H2 Hlen Hj Hfd1 Hfd2 Hle Hhs Hsin Hcos Hbd Hwd Hfi.
  pose proof (cal_safety_factor_shape_unique _ _ _ _ _ _ _ _ _ _ _ _ Hlen H1 H2)
    as Hsame.
  destruct (cal_safety_factor_cells _ _ _ _ _ _ _ _ _ _ H1) as (_ & _ & _ & Hc1).
  destruct (cal_safety_factor_cells _ _ _ _ _ _ _ _ _ _ H2) as (_ & _ & _ & Hc2).
  rewrite <- Hsame in Hc2.
  rewrite (Hc1 j Hj), (Hc2 j Hj), Hfd1, Hfd2.
  split; [now symmetry|]; split.
  - intros Hg.
    rewrite !fs_formula_finite by lra.
    do 2 eexists; repeat split.
    now apply fs_real_antitone.
  - intros ->; now rewrite !fs_formula_zero_gravity.
Qed.

(** The worked example of C1 with its flow depth raised from 0.2 to 0.5. *)
Lemma safety_factor_wetter_example :
  exists fs1 fs2,
    cal_safety_factor [PI / 4] [Finite (2 / 10)] [1]
                      0 0 1300 1000 (9806 / 1000) 35 = Ok [Finite fs1] /\
    cal_safety_factor [PI / 4] [Finite (5 / 10)] [1]
                      0 0 1300 1000 (9806 / 1000) 35 = Ok [Finite fs2] /\
    fs2 <= fs1.
Proof.
  destruct (cal_safety_factor_same_shape [PI / 4] [Finite (2 / 10)] [1]
              0 0 1300 1000 (9806 / 1000) 35 eq_refl eq_refl)
    as (r1 & Hr1 & Hlen1 & _).
  destruct (cal_safety_factor_same_shape [PI / 4] [Finite (5 / 10)] [1]
              0 0 1300 1000 (9806 / 1000) 35 eq_refl eq_refl)
    as (r2 & Hr2 & Hlen2 & _).
  assert (Hj : (0 < length r1)%nat) by (rewrite Hlen1; simpl; lia).
  pose proof PI_RGT_0 as Hpi.
  destruct (safety_factor_antitone_in_flow_depth [PI / 4] [Finite (2 / 10)]
              [Finite (5 / 10)] [1] 0 0 1300 1000 (9806 / 1000) 35
              r1 r2 0%nat (2 / 10) (5 / 10) Hr1 Hr2 eq_refl Hj)
    as (_ & Hfin & _).
  - rewrite Hlen1; reflexivity.
  - rewrite Hlen1; reflexivity.
  - lra.
  - rewrite Hlen1; unfold cell; simpl; lra.
  - rewrite Hlen1; unfold cell; simpl; apply sin_gt_0; lra.
  - rewrite Hlen1; unfold cell; simpl; left; apply cos_gt_0; lra.
  - lra.
  - lra.
  - lra.
  - destruct Hfin as (fs1 & fs2 & E1 & E2 & Hle); [lra|].
    exists fs1, fs2.
    rewrite Hr1, Hr2.
    rewrite (singleton_of_nth NonFinite (Finite fs1) r1 Hlen1 E1).
    rewrite (singleton_of_nth NonFinite (Finite fs2) r2 Hlen2 E2).
    repeat split; exact Hle.
Defined.

(** * The claims about [cal_subsurface_flow_depth] *)

Lemma strictly_increasing_adjacent (thr : list R) (i : nat) (a b : R) :
  strictly_increasing thr ->
  nth_error thr i = Some a -> nth_error thr (S i) = Some b -> a < b.
Proof.
  revert i; induction thr as [|x thr IH]; intros i Hinc Ha Hb.
  - now rewrite nth_error_nil in Ha.
  - destruct thr as [|y thr];
      [simpl in Hb; now rewrite nth_error_nil in Hb|].
    destruct Hinc as [Hxy Hinc].
    destruct i as [|i]; simpl in Ha, Hb.
    + inversion Ha; inversion Hb; subst; exact Hxy.
    + exact (IH i Hinc Ha Hb).
Qed.

Lemma thickness_at_layer (rows : list raster) (soil_depth : raster) (i j : nat)
    (lo hi s : R) :
  nth_error rows i = Some (map (clip_cell lo hi) soil_depth) ->
  nth_error soil_depth j = Some s ->
  thickness_at rows i j = Some (clip_cell lo hi s).
Proof.
  intros Hrow Hs; unfold thickness_at; rewrite Hrow.
  now apply map_nth_error.
Qed.

(** C2.  The worked example of the aggregation: one cell of soil depth 1,
    one layer of moisture 0.2 between the thresholds 0 and 1 (whatever
    thresholds follow), porosity 0.5; the flow depth is
    [(1 * 0.2) / 0.5 = 0.4]. *)
Theorem flow_depth_worked_example (deeper : list R) :
  cal_subsurface_flow_depth [1] [[2 / 10]] (0 :: 1 :: deeper) (5 / 10)
  = Ok [Finite (1 * (2 / 10) / (5 / 10))]
  /\ 1 * (2 / 10) / (5 / 10) = 4 / 10.
Proof.
  split; [|lra].
  destruct (cal_subsurface_flow_depth_same_shape [1] [[2 / 10]]
              (0 :: 1 :: deeper) (5 / 10))
    as (r & Hr & Hlen & Hcells).
  - right; simpl; lia.
  - repeat constructor.
  - rewrite Hr; f_equal.
    apply (singleton_of_nth NonFinite); [exact Hlen|].
    rewrite Hcells by (simpl; lia); simpl nth; simpl map.
    rewrite cell_flow_finite by lra.
    simpl; rewrite (clip_cell_above 0 1 1) by lra.
    f_equal; lra.
Qed.

(** The same cell and layer under the default thresholds, whose first layer
    ends at 0.07. *)
Lemma flow_depth_default_thresholds :
  cal_subsurface_flow_depth [1] [[2 / 10]] default_layer_threshold default_porosity
  = Ok [Finite (7 / 100 * (2 / 10) / (5 / 10))].
Proof.
  unfold default_layer_threshold, default_porosity.
  destruct (cal_subsurface_flow_depth_same_shape [1] [[2 / 10]]
              [0; 7 / 100; 28 / 100; 1; 2] (5 / 10))
    as (r & Hr & Hlen & Hcells).
  - right; simpl; lia.
  - repeat constructor.
  - rewrite Hr; f_equal.
    apply (singleton_of_nth NonFinite); [exact Hlen|].
    rewrite Hcells by (simpl; lia); simpl nth; simpl map.
    rewrite cell_flow_finite by lra.
    simpl; rewrite (clip_cell_above 0 (7 / 100) 1) by lra.
    f_equal; lra.
Qed.

(** C3.  For strictly increasing thresholds, at a cell whose soil depth is
    exactly the threshold [hi] that ends layer [i], the loop stores the full
    width [hi - lo] for layer [i] and 0 for layer [i + 1]. *)
Theorem boundary_belongs_to_lower_layer (soil_depth : raster)
    (soil_water_layer : list raster) (thr : list R) (i j : nat) (lo hi : R) :
  strictly_increasing thr ->
  (length soil_water_layer < length thr)%nat ->
  (i < length soil_water_layer)%nat ->
  nth_error thr i = Some lo -> nth_error thr (S i) = Some hi ->
  nth_error soil_depth j = Some hi ->
  exists rows,
    soil_depth_layers soil_depth (length soil_water_layer) thr = Ok rows /\
    thickness_at rows i j = Some (hi - lo) /\
    ((S i < length soil_water_layer)%nat -> thickness_at rows (S i) j = Some 0).
Proof.
  intros Hinc Hlen Hi Hlo Hhi Hs.
  destruct (soil_depth_layers_in_range soil_depth _ thr Hlen)
    as (rows & Hrows & _ & Hrow).
  exists rows; split; [exact Hrows|].
  pose proof (strictly_increasing_adjacent thr i lo hi Hinc Hlo Hhi) as Hlt.
  split.
  - rewrite (thickness_at_layer rows soil_depth i j lo hi hi);
      [|now apply Hrow | exact Hs].
    f_equal; apply clip_cell_above; lra.
  - intros Hi'.
    destruct (nth_error thr (S (S i))) as [hi2|] eqn:Hhi2;
      [|apply nth_error_None in Hhi2; lia].
    pose proof (strictly_increasing_adjacent thr (S i) hi hi2 Hinc Hhi Hhi2).
    rewrite (thickness_at_layer rows soil_depth (S i) j hi hi2 hi);
      [|now apply Hrow | exact Hs].
    f_equal; apply clip_cell_below; lra.
Qed.

(** Thresholds [0, 1, 2] and a cell of soil depth 1: layer 0 is 1 thick,
    layer 1 is 0 thick. *)
Lemma boundary_example :
  exists rows,
    soil_depth_layers [1] (length [[2 / 10]; [3 / 10]]) [0; 1; 2] = Ok rows /\
    thickness_at rows 0 0 = Some (1 - 0) /\
    thickness_at rows 1 0 = Some 0.
Proof.
  destruct (boundary_belongs_to_lower_layer [1] [[2 / 10]; [3 / 10]] [0; 1; 2]
              0 0 0 1) as (rows & Hrows & H0 & H1).
  - simpl; lra.
  - simpl; lia.
  - simpl; lia.
  - reflexivity.
  - reflexivity.
  - reflexivity.
  - exists rows; repeat split; [exact Hrows | exact H0 | apply H1; simpl; lia].
Defined.

(** C7.  For strictly increasing thresholds the thickness that the loop
    stores for layer [i] at a cell of soil depth [s] lies between 0 and the
    width [hi - lo] of the layer; it is 0 when [s <= lo] and the full width
    when [s >= hi]. *)
Theorem layer_thickness_bounds (soil_depth : raster)
    (soil_water_layer : list raster) (thr : list R) (i j : nat) (lo hi s : R) :
  strictly_increasing thr ->
  (length soil_water_layer < length thr)%nat ->
  (i < length soil_water_layer)%nat ->
  nth_error thr i = Some lo -> nth_error thr (S i) = Some hi ->
  nth_error soil_depth j = Some s ->
  exists rows t,
    soil_depth_layers soil_depth (length soil_water_layer) thr = Ok rows /\
    thickness_at rows i j = Some t /\
    0 <= t <= hi - lo /\
    (s <= lo -> t = 0) /\
    (hi <= s -> t = hi - lo).
Proof.
  intros Hinc Hlen Hi Hlo Hhi Hs.
  destruct (soil_depth_layers_in_range soil_depth _ thr Hlen)
    as (rows & Hrows & _ & Hrow).
  pose proof (strictly_increasing_adjacent thr i lo hi Hinc Hlo Hhi) as Hlt.
  exists rows, (clip_cell lo hi s); split; [exact Hrows|].
  split; [apply (thickness_at_layer rows soil_depth); [now apply Hrow | exact Hs]|].
  split; [split; [apply clip_cell_nonneg | apply clip_cell_le_width; lra]|].
  split; [apply clip_cell_below | apply clip_cell_above; lra].
Qed.

(** A cell of soil depth 0.5 under the default thresholds, third layer
    (0.28 to 1). *)
Lemma layer_thickness_example :
  exists rows t,
    soil_depth_layers [5 / 10] (length [[2 / 10]; [2 / 10]; [2 / 10]; [2 / 10]])
                      default_layer_threshold = Ok rows /\
    thickness_at rows 2 0 = Some t /\
    0 <= t <= 1 - 28 / 100.
Proof.
  destruct (layer_thickness_bounds [5 / 10] [[2 / 10]; [2 / 10]; [2 / 10]; [2 / 10]]
              default_layer_threshold 2 0 (28 / 100) 1 (5 / 10))
    as (rows & t & Hrows & Ht & Hb & _).
  - simpl; lra.
  - simpl; lia.
  - simpl; lia.
  - reflexivity.
  - reflexivity.
  - reflexivity.
  - exists rows, t; repeat split; try assumption; apply Hb.
Defined.

Lemma cell_Forall {A : Type} (P : A -> Prop) (d : A) (c : nat) (xs : list A) (j : nat) :
  Forall P xs -> fits c (length xs) -> (j < c)%nat -> P (cell d c xs j).
Proof.
  intros HP Hfit Hj; unfold cell.
  assert (HF : Forall P (broadcast_to c xs)).
  { destruct xs as [|x [|y xs]]; simpl; try assumption.
    apply Forall_forall; intros z Hz; apply repeat_spec in Hz; subst z.
    now inversion HP. }
  rewrite Forall_forall in HF; apply HF, nth_In.
  now rewrite broadcast_to_length.
Qed.

Lemma column_Forall (P : R -> Prop) (c : nat) (swl : list raster) (j : nat) :
  Forall (Forall P) swl -> Forall (fun row => fits c (length row)) swl ->
  (j < c)%nat -> Forall P (column c swl j).
Proof.
  intros HP Hfit Hj; unfold column.
  induction HP as [|row swl Hrow _ IH]; simpl; constructor.
  - apply cell_Forall; [assumption | now inversion Hfit | assumption].
  - apply IH; now inversion Hfit.
Qed.

Lemma broadcast_rows_fit (n c : nat) (swl : list raster) :
  Forall (fun row => broadcast_shape (length row) n = Ok c) swl ->
  Forall (fun row => fits c (length row)) swl /\ (swl <> [] -> fits c n).
Proof.
  intros H; split.
  - eapply Forall_impl; [|exact H].
    intros row Hrow; now apply broadcast_shape_cases in Hrow.
  - destruct H as [|row swl Hrow _]; [congruence|].
    intros _; now apply broadcast_shape_cases in Hrow.
Qed.

(** C4, amended.  With strictly increasing thresholds that start at 0,
    moisture between 0 and 1, a positive porosity and non-negative soil
    depths, every cell of a returned raster is a non-negative number; with
    porosity 1 and a stack of a single layer, where no sum of thicknesses
    is rounded, it is at most the soil depth of the cell.  The function does
    return when the rasters have one shape and the stack is not empty and
    has fewer layers than there are thresholds. *)
Theorem flow_depth_nonnegative (soil_depth : raster)
    (soil_water_layer : list raster) (thr : list R) (porosity : R) :
  strictly_increasing thr ->
  nth_error thr 0 = Some 0 ->
  Forall (Forall (fun m => 0 <= m <= 1)) soil_water_layer ->
  0 < porosity ->
  Forall (fun s => 0 <= s) soil_depth ->
  (soil_water_layer <> [] ->
   same_shape soil_depth soil_water_layer ->
   (length soil_water_layer < length thr)%nat ->
   exists r, cal_subsurface_flow_depth soil_depth soil_water_layer thr porosity
             = Ok r /\ length r = length soil_depth) /\
  forall r j,
    cal_subsurface_flow_depth soil_depth soil_water_layer thr porosity = Ok r ->
    (j < length r)%nat ->
    exists v, nth j r NonFinite = Finite v /\ 0 <= v /\
              (porosity = 1 -> length soil_water_layer = 1%nat ->
               v <= cell 0 (length r) soil_depth j).
Proof.
  intros Hinc H0 Hms Hpor Hsd; split.
  - intros _ Hshape Hlen.
    destruct (cal_subsurface_flow_depth_same_shape soil_depth soil_water_layer
                thr porosity (or_intror Hlen) Hshape) as (r & Hr & Hn & _).
    now exists r.
  - intros r j Hr Hj.
    destruct (cal_subsurface_flow_depth_cells _ _ _ _ _ Hr)
      as (_ & Hnil & Hc & Hcells).
    destruct (broadcast_rows_fit _ _ _ Hc) as [Hfit Hfsd].
    rewrite (Hcells j Hj), cell_flow_finite by lra.
    set (s := cell 0 (length r) soil_depth j).
    set (ms := column (length r) soil_water_layer j).
    assert (Hcol : Forall (fun m => 0 <= m <= 1) ms)
      by (apply column_Forall; assumption).
    assert (Hs : 0 <= s).
    { apply cell_Forall; [assumption| |assumption].
      destruct soil_water_layer as [|row swl]; [left; symmetry; now apply Hnil|].
      apply Hfsd; discriminate. }
    assert (Hnn : 0 <= Rsum (layer_water s ms thr)).
    { apply layer_water_nonneg; eapply Forall_impl; [|exact Hcol].
      intros m Hm; apply Hm. }
    eexists; split; [reflexivity|]; split.
    + apply Rmult_le_pos; [exact Hnn | left; now apply Rinv_0_lt_compat].
    + intros -> _.
      destruct thr as [|t0 rest]; [discriminate|].
      simpl in H0; inversion H0; subst t0.
      pose proof (layer_water_le_depth s ms Hcol (0 :: rest) 0 rest eq_refl Hinc Hs).
      lra.
Qed.

(** One layer of the default profile over a cell of soil depth 0.5, with
    porosity 1. *)
Lemma single_layer_example :
  exists v,
    cal_subsurface_flow_depth [5 / 10] [[2 / 10]]
                              default_layer_threshold 1 = Ok [Finite v] /\
    0 <= v <= 5 / 10.
Proof.
  destruct (flow_depth_nonnegative [5 / 10] [[2 / 10]]
              default_layer_threshold 1) as [Hret Hcell].
  - simpl; lra.
  - reflexivity.
  - repeat constructor; lra.
  - lra.
  - repeat constructor; lra.
  - destruct Hret as (r & Hr & Hlen);
      [discriminate | repeat constructor | simpl; lia|].
    destruct (Hcell r 0%nat Hr) as (v & Hv & H0 & H1); [rewrite Hlen; simpl; lia|].
    exists v; rewrite Hr.
    rewrite (singleton_of_nth NonFinite (Finite v) r Hlen Hv).
    split; [reflexivity|]; split; [exact H0|].
    specialize (H1 eq_refl eq_refl); rewrite Hlen in H1; exact H1.
Defined.

Module B64Facts.
Import PrimFloat.
Local Open Scope float_scope.
Local Set Warnings "-inexact-float".

(** C4, as stated, fails in binary64.  Thresholds [0, 0.03, 0.31] are
    strictly increasing and start at 0, both layers have moisture 1, the
    porosity is 1 and the soil depth is 0.31: the thicknesses 0.03 and
    [0.31 - 0.03], rounded, add up to more than the soil depth. *)
Lemma rounded_sum_exceeds_soil_depth :
  (0 <? 0.03) = true /\ (0.03 <? 0.31) = true /\
  B64.cal_subsurface_flow_depth [0.31] [[1]; [1]] [0; 0.03; 0.31] 1
  = Ok [0.31000000000000005] /\
  (0.31 <? 0.31000000000000005) = true.
Proof. repeat split; vm_compute; reflexivity. Qed.

(** The worked example of the aggregation, in binary64. *)
Lemma worked_example_binary64 :
  B64.cal_subsurface_flow_depth [1] [[0.2]] [0; 1] 0.5 = Ok [0.4].
Proof. vm_compute; reflexivity. Qed.

End B64Facts.

Lemma replace_layer_length (k : nat) (row' : raster) (swl : list raster) :
  length (replace_layer k row' swl) = length swl.
Proof.
  revert k; induction swl as [|row swl IH]; intros [|k]; simpl; auto.
Qed.

Lemma replace_layer_Forall (P : raster -> Prop) (k : nat) (row' : raster)
    (swl : list raster) :
  Forall P swl -> P row' -> Forall P (replace_layer k row' swl).
Proof.
  intros H Hrow'; revert k; induction H as [|row swl Hrow Hswl IH]; intros [|k];
    simpl; constructor; auto.
Qed.

Lemma Forall2_broadcast_to (c : nat) (xs ys : raster) :
  Forall2 Rle xs ys -> Forall2 Rle (broadcast_to c xs) (broadcast_to c ys).
Proof.
  intros H; destruct H as [|x y xs ys Hxy Hrest]; [constructor|].
  destruct Hrest as [|x' y' xs ys Hxy' Hrest]; simpl.
  - induction c as [|c IH]; simpl; constructor; assumption.
  - constructor; [assumption|]; constructor; assumption.
Qed.

Lemma Forall2_Rle_nth (xs ys : raster) (j : nat) :
  Forall2 Rle xs ys -> nth j xs 0 <= nth j ys 0.
Proof.
  intros H; revert j; induction H as [|x y xs ys Hxy _ IH]; intros [|j]; simpl;
    try lra; auto.
Qed.

Lemma cell_Rle (c : nat) (xs ys : raster) (j : nat) :
  Forall2 Rle xs ys -> cell 0 c xs j <= cell 0 c ys j.
Proof.
  intros H; unfold cell; now apply Forall2_Rle_nth, Forall2_broadcast_to.
Qed.

Lemma Forall2_Rle_refl (xs : list R) : Forall2 Rle xs xs.
Proof. induction xs; constructor; [lra | assumption]. Qed.

Lemma column_replace_layer (c : nat) (swl : list raster) (k : nat)
    (row row' : raster) (j : nat) :
  nth_error swl k = Some row -> Forall2 Rle row row' ->
  Forall2 Rle (column c swl j) (column c (replace_layer k row' swl) j).
Proof.
  revert k; induction swl as [|r0 swl IH]; intros [|k] Hk Hle; simpl in *;
    try discriminate.
  - inversion Hk; subst r0.
    constructor; [now apply cell_Rle | apply Forall2_Rle_refl].
  - constructor; [lra | now apply IH].
Qed.

Lemma replace_layer_broadcastable (soil_depth : raster) (swl : list raster)
    (k : nat) (row row' : raster) :
  nth_error swl k = Some row -> length row' = length row ->
  broadcastable soil_depth swl ->
  broadcastable soil_depth (replace_layer k row' swl).
Proof.
  intros Hk Hlen (m & c & Hm & Hc).
  exists m, c; split; [|exact Hc].
  apply replace_layer_Forall; [exact Hm|].
  rewrite Forall_forall in Hm; rewrite Hlen.
  apply Hm; eapply nth_error_In; exact Hk.
Qed.

Lemma replace_layer_In (k : nat) (row' : raster) (swl : list raster) :
  (k < length swl)%nat -> In row' (replace_layer k row' swl).
Proof.
  revert k; induction swl as [|r0 swl IH]; intros [|k] Hk; simpl in *; try lia.
  - now left.
  - right; apply IH; lia.
Qed.

(** C8.  With strictly increasing thresholds and a positive porosity, let
    the raster of one layer of the moisture stack be replaced by one that is
    cell by cell at least as moist, everything else unchanged.  If the
    function returned before, it returns again, a raster of the same shape
    in which no cell is smaller than before. *)
Theorem flow_depth_monotone_in_moisture (soil_depth : raster)
    (soil_water_layer : list raster) (thr : list R) (porosity : R)
    (k : nat) (row row' : raster) (r : farray) :
  strictly_increasing thr ->
  0 < porosity ->
  nth_error soil_water_layer k = Some row ->
  Forall2 Rle row row' ->
  cal_subsurface_flow_depth soil_depth soil_water_layer thr porosity = Ok r ->
  exists r',
    cal_subsurface_flow_depth soil_depth (replace_layer k row' soil_water_layer)
                              thr porosity = Ok r' /\
    length r' = length r /\
    forall j, (j < length r)%nat ->
      exists v v', nth j r NonFinite = Finite v /\
                   nth j r' NonFinite = Finite v' /\ v <= v'.
Proof.
  intros _ Hpor Hk Hle Hr.
  pose proof (Forall2_length Hle) as Hrowlen.
  destruct (cal_subsurface_flow_depth_cells _ _ _ _ _ Hr)
    as (Hlen & _ & Hc & Hcells).
  pose proof (cal_subsurface_flow_depth_shapes _ _ _ _ _ Hr) as Hshape.
  assert (Hklt : (k < length soil_water_layer)%nat)
    by (apply nth_error_Some; congruence).
  destruct (cal_subsurface_flow_depth_returns soil_depth
              (replace_layer k row' soil_water_layer) thr porosity) as [r' Hr'].
  { right; rewrite replace_layer_length.
    destruct Hlen as [->|Hlt]; [simpl in Hklt; lia | exact Hlt]. }
  { eapply replace_layer_broadcastable; eauto. }
  exists r'; split; [exact Hr'|].
  destruct (cal_subsurface_flow_depth_cells _ _ _ _ _ Hr')
    as (_ & _ & Hc' & Hcells').
  assert (Hsame : length r' = length r).
  { rewrite Forall_forall in Hc, Hc'.
    pose proof (Hc row (nth_error_In _ _ Hk)) as E.
    pose proof (Hc' row' (replace_layer_In k row' _ Hklt)) as E'.
    rewrite <- Hrowlen in E'; congruence. }
  split; [exact Hsame|].
  intros j Hj.
  rewrite (Hcells j Hj), (Hcells' j) by lia.
  rewrite Hsame, !cell_flow_finite by lra.
  do 2 eexists; split; [reflexivity|]; split; [reflexivity|].
  apply Rmult_le_compat_r; [left; now apply Rinv_0_lt_compat|].
  apply layer_water_monotone.
  eapply column_replace_layer; eauto.
Qed.

(** Raising the moisture of the second layer from 0.3 to 0.6. *)
Lemma flow_depth_moister_example :
  exists v v',
    cal_subsurface_flow_depth [5 / 10] [[2 / 10]; [3 / 10]]
                              default_layer_threshold default_porosity
    = Ok [Finite v] /\
    cal_subsurface_flow_depth [5 / 10] [[2 / 10]; [6 / 10]]
                              default_layer_threshold default_porosity
    = Ok [Finite v'] /\
    v <= v'.
Proof.
  destruct (cal_subsurface_flow_depth_same_shape [5 / 10] [[2 / 10]; [3 / 10]]
              default_layer_threshold default_porosity)
    as (r & Hr & Hlen & _);
    [right; simpl; lia | repeat constructor |].
  destruct (flow_depth_monotone_in_moisture [5 / 10] [[2 / 10]; [3 / 10]]
              default_layer_threshold default_porosity 1 [3 / 10] [6 / 10] r)
    as (r' & Hr' & Hlen' & Hcell).
  - simpl; lra.
  - unfold default_porosity; lra.
  - reflexivity.
  - repeat constructor; lra.
  - exact Hr.
  - destruct (Hcell 0%nat) as (v & v' & Hv & Hv' & Hle);
      [rewrite Hlen; simpl; lia|].
    exists v, v'.
    rewrite Hr; simpl replace_layer in Hr'; rewrite Hr'.
    rewrite (singleton_of_nth NonFinite (Finite v) r Hlen Hv).
    rewrite Hlen in Hlen'.
    rewrite (singleton_of_nth NonFinite (Finite v') r' Hlen' Hv').
    repeat split; exact Hle.
Defined.

(** *** Exceptions of [cal_subsurface_flow_depth] *)

Lemma map2_Raise {A B C : Type} (f : A -> B -> C) (xs : list A) (ys : list B)
    (e : exn) :
  map2 f xs ys = Raise e -> e = ValueError.
Proof.
  unfold map2, broadcast_shape.
  destruct (Nat.eqb _ _); [discriminate|].
  destruct (Nat.eqb _ _); [discriminate|].
  destruct (Nat.eqb _ _); [discriminate|].
  simpl; congruence.
Qed.

Lemma mapM_Raise {A B : Type} (f : A -> result B) (xs : list A) (e : exn) :
  mapM f xs = Raise e -> exists x, In x xs /\ f x = Raise e.
Proof.
  induction xs as [|x xs IH]; simpl; [discriminate|].
  destruct (f x) as [y|e'] eqn:Hx; cbn [bind].
  - destruct (mapM f xs) as [ys|e'] eqn:Hxs; cbn [bind]; [discriminate|].
    intros H; inversion H; subst e'.
    destruct (IH eq_refl) as (x' & Hin & Hx'); exists x'; auto.
  - intros H; inversion H; subst e'; exists x; auto.
Qed.

Lemma mul2_Raise (a b : list raster) (e : exn) :
  mul2 a b = Raise e -> e = ValueError.
Proof.
  unfold mul2.
  destruct (asarray2 a) as [a'|e'] eqn:Ha; cbn [bind].
  - intros H; apply mapM_Raise in H as ([row srow] & _ & H).
    now apply map2_Raise in H.
  - intros H; inversion H; subst e'.
    destruct a as [|r rs]; simpl in Ha; [discriminate|].
    destruct (forallb _ rs); [discriminate | congruence].
Qed.

Lemma cal_subsurface_flow_depth_IndexError (soil_depth : raster)
    (swl : list raster) (thr : list R) (porosity : R) :
  swl <> [] -> (length thr <= length swl)%nat ->
  cal_subsurface_flow_depth soil_depth swl thr porosity = Raise IndexError.
Proof.
  intros Hne Hlen; unfold cal_subsurface_flow_depth.
  rewrite soil_depth_layers_out_of_range; [reflexivity| |exact Hlen].
  destruct swl; [congruence | simpl; lia].
Qed.

Lemma cal_subsurface_flow_depth_in_range (soil_depth : raster)
    (swl : list raster) (thr : list R) (porosity : R) (e : exn) :
  swl = [] \/ (length swl < length thr)%nat ->
  cal_subsurface_flow_depth soil_depth swl thr porosity = Raise e ->
  e = ValueError.
Proof.
  intros Hlen; unfold cal_subsurface_flow_depth.
  assert (Hsdl : exists sdl, soil_depth_layers soil_depth (length swl) thr = Ok sdl).
  { destruct Hlen as [->|Hlt]; [now exists []|].
    destruct (soil_depth_layers_in_range soil_depth _ thr Hlt) as (rows & H & _).
    now exists rows. }
  destruct Hsdl as [sdl ->]; cbn [bind].
  destruct (mul2 swl sdl) as [prod|e'] eqn:Hprod; cbn [bind]; [discriminate|].
  intros H; inversion H; subst e'.
  now apply mul2_Raise in Hprod.
Qed.

(** C6, as stated, fails: the thresholds [0, 1, 0.5] are not increasing, the
    stack has [len(thresholds) - 1] layers, the shapes agree, and the
    function returns a flow depth. *)
Lemma non_monotonic_thresholds_accepted :
  ~ strictly_increasing [0; 1; 5 / 10] /\
  cal_subsurface_flow_depth [1] [[2 / 10]; [3 / 10]] [0; 1; 5 / 10] (5 / 10)
  = Ok [Finite (4 / 10)].
Proof.
  split; [simpl; lra|].
  destruct (cal_subsurface_flow_depth_same_shape [1] [[2 / 10]; [3 / 10]]
              [0; 1; 5 / 10] (5 / 10))
    as (r & Hr & Hlen & Hcells);
    [right; simpl; lia | repeat constructor |].
  rewrite Hr; f_equal.
  apply (singleton_of_nth NonFinite); [exact Hlen|].
  rewrite Hcells by (simpl; lia); simpl nth; simpl map.
  rewrite cell_flow_finite by lra.
  simpl; rewrite (clip_cell_above 0 1 1), (clip_cell_below 1 (5 / 10) 1) by lra.
  f_equal; lra.
Qed.

(** C6, amended.  [cal_subsurface_flow_depth] checks nothing before it
    computes, and the order of the thresholds never makes it fail.  For any
    thresholds, increasing or not, and a stack that is not empty: with fewer
    layers than there are thresholds (also fewer than
    [len(thresholds) - 1]) and moisture rasters of the shape of the soil
    depth, it returns a raster of that shape; with at least as many layers
    as there are thresholds the layer loop raises [IndexError]; and when the
    loop goes through but the one-dimensional rasters of the stack cannot be
    broadcast against the soil depth, the product after the loop raises
    numpy's [ValueError]. *)
Theorem flow_depth_failures (soil_depth : raster) (soil_water_layer : list raster)
    (thr : list R) (porosity : R) :
  soil_water_layer <> [] ->
  ((length soil_water_layer < length thr)%nat ->
   same_shape soil_depth soil_water_layer ->
   exists r, cal_subsurface_flow_depth soil_depth soil_water_layer thr porosity
             = Ok r /\ length r = length soil_depth) /\
  ((length thr <= length soil_water_layer)%nat ->
   cal_subsurface_flow_depth soil_depth soil_water_layer thr porosity
   = Raise IndexError) /\
  ((length soil_water_layer < length thr)%nat ->
   ~ broadcastable soil_depth soil_water_layer ->
   cal_subsurface_flow_depth soil_depth soil_water_layer thr porosity
   = Raise ValueError).
Proof.
  intros Hne; split; [|split].
  - intros Hlen Hshape.
    destruct (cal_subsurface_flow_depth_same_shape soil_depth soil_water_layer
                thr porosity (or_intror Hlen) Hshape) as (r & Hr & Hn & _).
    now exists r.
  - now apply cal_subsurface_flow_depth_IndexError.
  - intros Hlen Hnb.
    destruct (cal_subsurface_flow_depth soil_depth soil_water_layer thr porosity)
      as [r|e] eqn:Hcal.
    + exfalso; apply Hnb; eapply cal_subsurface_flow_depth_shapes; exact Hcal.
    + f_equal; eapply cal_subsurface_flow_depth_in_range;
        [right; exact Hlen | exact Hcal].
Qed.

(** A stack of one layer under the thresholds [0, 1, 0.5]; three layers
    under the same thresholds; and a moisture raster of three cells over a
    soil depth raster of two. *)
Lemma failure_modes_example :
  (exists r, cal_subsurface_flow_depth [1] [[2 / 10]] [0; 1; 5 / 10] (5 / 10)
             = Ok r /\ length r = 1%nat) /\
  cal_subsurface_flow_depth [1] [[2 / 10]; [3 / 10]; [4 / 10]] [0; 1; 5 / 10]
                            (5 / 10) = Raise IndexError /\
  cal_subsurface_flow_depth [1; 1] [[2 / 10; 2 / 10; 2 / 10]] [0; 1; 5 / 10]
                            (5 / 10) = Raise ValueError.
Proof.
  split; [|split].
  - apply (flow_depth_failures [1] [[2 / 10]] [0; 1; 5 / 10] (5 / 10)).
    + discriminate.
    + simpl; lia.
    + repeat constructor.
  - apply (flow_depth_failures [1] [[2 / 10]; [3 / 10]; [4 / 10]]
             [0; 1; 5 / 10] (5 / 10)).
    + discriminate.
    + simpl; lia.
  - apply (flow_depth_failures [1; 1] [[2 / 10; 2 / 10; 2 / 10]]
             [0; 1; 5 / 10] (5 / 10)).
    + discriminate.
    + simpl; lia.
    + intros (m & c & Hm & Hc).
      inversion Hm as [|? ? Hrow _]; subst; simpl in Hc; discriminate.
Defined.

(** C10.  The loop reads the threshold at position [i + 1] for every
    layer [i] of the stack.  For the thresholds of a soil profile (at least
    one threshold): a stack with at least as many layers as there are
    thresholds sends the access out of bounds, and the function raises
    [IndexError] instead of returning; whenever the function returns,
    [len(soil_water_layer) <= len(layer_threshold) - 1]. *)
Theorem threshold_index_out_of_bounds (soil_depth : raster)
    (soil_water_layer : list raster) (thr : list R) (porosity : R) :
  thr <> [] ->
  ((length thr <= length soil_water_layer)%nat ->
   cal_subsurface_flow_depth soil_depth soil_water_layer thr porosity
   = Raise IndexError) /\
  (forall r,
     cal_subsurface_flow_depth soil_depth soil_water_layer thr porosity = Ok r ->
     (Z.of_nat (length soil_water_layer) <= Z.of_nat (length thr) - 1)%Z).
Proof.
  intros Hthr.
  assert (Hpos : (0 < length thr)%nat)
    by (destruct thr; [congruence | simpl; lia]).
  split.
  - intros Hlen; apply cal_subsurface_flow_depth_IndexError; [|exact Hlen].
    destruct soil_water_layer; [simpl in Hlen; lia | discriminate].
  - intros r Hr.
    destruct (cal_subsurface_flow_depth_cells _ _ _ _ _ Hr) as ([H|H] & _);
      [subst; simpl; lia | lia].
Qed.

(** Five layers under the five default thresholds: the fifth layer reads a
    sixth threshold. *)
Lemma threshold_index_example :
  cal_subsurface_flow_depth [1]
    [[2 / 10]; [2 / 10]; [2 / 10]; [2 / 10]; [2 / 10]]
    default_layer_threshold default_porosity = Raise IndexError.
Proof.
  apply (threshold_index_out_of_bounds [1]
           [[2 / 10]; [2 / 10]; [2 / 10]; [2 / 10]; [2 / 10]]
           default_layer_threshold default_porosity).
  - discriminate.
  - simpl; lia.
Defined.

(** * Further properties of [cal_subsurface_flow_depth] *)

Lemma soil_layer_app (soil_depth : raster) (thr extra : list R) (i : nat) :
  (i + 1 < length thr)%nat ->
  soil_layer soil_depth (thr ++ extra) i = soil_layer soil_depth thr i.
Proof.
  intros Hi; unfold soil_layer, getitem.
  rewrite !nth_error_app1 by lia; reflexivity.
Qed.

(** X1.  Thresholds beyond the one that closes the last layer of the stack
    are never read: appending thresholds changes nothing, neither the value
    nor the exception. *)
Theorem deeper_thresholds_ignored (soil_depth : raster)
    (soil_water_layer : list raster) (thr extra : list R) (porosity : R) :
  (length soil_water_layer < length thr)%nat ->
  cal_subsurface_flow_depth soil_depth soil_water_layer (thr ++ extra) porosity
  = cal_subsurface_flow_depth soil_depth soil_water_layer thr porosity.
Proof.
  intros Hlen; unfold cal_subsurface_flow_depth, soil_depth_layers.
  rewrite (mapM_ext_in (soil_layer soil_depth (thr ++ extra))
                       (soil_layer soil_depth thr)); [reflexivity|].
  intros i Hi; apply in_seq in Hi.
  apply soil_layer_app; lia.
Qed.

(** Two layers under the first three default thresholds and under all five. *)
Lemma deeper_thresholds_example :
  cal_subsurface_flow_depth [5 / 10] [[2 / 10]; [3 / 10]]
    ([0; 7 / 100; 28 / 100] ++ [1; 2]) default_porosity
  = cal_subsurface_flow_depth [5 / 10] [[2 / 10]; [3 / 10]]
      [0; 7 / 100; 28 / 100] default_porosity.
Proof.
  apply (deeper_thresholds_ignored [5 / 10] [[2 / 10]; [3 / 10]]
           [0; 7 / 100; 28 / 100] [1; 2] default_porosity).
  simpl; lia.
Defined.

Lemma layer_water_cons (s : R) (ms thr : list R) :
  ms <> [] -> (2 <= length thr)%nat -> layer_water s ms thr <> [].
Proof.
  destruct ms as [|m ms]; [congruence|].
  destruct thr as [|lo [|hi thr]]; simpl; try lia; discriminate.
Qed.

(** X2.  A porosity of 0 raises nothing: with at least one layer, fewer
    layers than thresholds and shapes that broadcast, the function returns a
    raster in which every cell is non-finite. *)
Theorem zero_porosity_nowhere_finite (soil_depth : raster)
    (soil_water_layer : list raster) (thr : list R) :
  soil_water_layer <> [] ->
  (length soil_water_layer < length thr)%nat ->
  broadcastable soil_depth soil_water_layer ->
  exists r,
    cal_subsurface_flow_depth soil_depth soil_water_layer thr 0 = Ok r /\
    forall j, (j < length r)%nat -> nth j r NonFinite = NonFinite.
Proof.
  intros Hne Hlen Hshape.
  destruct (cal_subsurface_flow_depth_returns soil_depth soil_water_layer thr 0
              (or_intror Hlen) Hshape) as [r Hr].
  exists r; split; [exact Hr|].
  destruct (cal_subsurface_flow_depth_cells _ _ _ _ _ Hr) as (_ & _ & _ & Hcells).
  intros j Hj; rewrite (Hcells j Hj).
  apply cell_flow_zero_porosity, layer_water_cons.
  - unfold column; destruct soil_water_layer; [congruence | discriminate].
  - destruct soil_water_layer; [congruence | simpl in Hlen; lia].
Qed.

Lemma zero_porosity_example :
  cal_subsurface_flow_depth [1] [[2 / 10]] default_layer_threshold 0
  = Ok [NonFinite].
Proof.
  destruct (zero_porosity_nowhere_finite [1] [[2 / 10]] default_layer_threshold)
    as (r & Hr & Hcells).
  - discriminate.
  - simpl; lia.
  - apply same_shape_broadcastable; repeat constructor.
  - rewrite Hr; f_equal.
    destruct (cal_subsurface_flow_depth_same_shape [1] [[2 / 10]]
                default_layer_threshold 0) as (r' & Hr' & Hlen & _);
      [right; simpl; lia | repeat constructor |].
    assert (r' = r) by congruence; subst r'.
    apply (singleton_of_nth NonFinite); [exact Hlen|].
    apply Hcells; rewrite Hlen; simpl; lia.
Defined.

(** X3.  With strictly increasing thresholds and a non-zero porosity, a
    cell whose soil depth is at or below the first threshold has a flow
    depth of 0, whatever the moisture of the layers. *)
Theorem no_soil_no_flow (soil_depth : raster) (soil_water_layer : list raster)
    (thr : list R) (porosity t0 : R) (r : farray) (j : nat) :
  strictly_increasing thr ->
  nth_error thr 0 = Some t0 ->
  porosity <> 0 ->
  cal_subsurface_flow_depth soil_depth soil_water_layer thr porosity = Ok r ->
  (j < length r)%nat ->
  cell 0 (length r) soil_depth j <= t0 ->
  nth j r NonFinite = Finite 0.
Proof.
  intros Hinc H0 Hpor Hr Hj Hs.
  destruct (cal_subsurface_flow_depth_cells _ _ _ _ _ Hr) as (_ & _ & _ & Hcells).
  rewrite (Hcells j Hj), cell_flow_finite by assumption.
  destruct thr as [|t rest]; [discriminate|].
  simpl in H0; inversion H0; subst t.
  rewrite (layer_water_below _ _ (t0 :: rest) t0 rest eq_refl Hinc Hs).
  f_equal; unfold Rdiv; ring.
Qed.

Lemma no_soil_no_flow_example :
  cal_subsurface_flow_depth [0] [[2 / 10]; [3 / 10]] default_layer_threshold
                            default_porosity = Ok [Finite 0].
Proof.
  destruct (cal_subsurface_flow_depth_same_shape [0] [[2 / 10]; [3 / 10]]
              default_layer_threshold default_porosity) as (r & Hr & Hlen & _);
    [right; simpl; lia | repeat constructor |].
  rewrite Hr; f_equal.
  apply (singleton_of_nth NonFinite); [exact Hlen|].
  apply (no_soil_no_flow [0] [[2 / 10]; [3 / 10]] default_layer_threshold
           default_porosity 0 r 0).
  - simpl; lra.
  - reflexivity.
  - unfold default_porosity; lra.
  - exact Hr.
  - rewrite Hlen; simpl; lia.
  - rewrite Hlen; unfold cell; simpl; lra.
Defined.

Lemma clip_cell_capped (lo hi tmax s : R) :
  hi <= tmax ->
  clip_cell lo hi (if Rge_dec s tmax then tmax else s) = clip_cell lo hi s.
Proof.
  intros H; destruct (Rge_dec s tmax); [|reflexivity].
  case_clip; lra.
Qed.

Lemma soil_layer_capped (soil_depth : raster) (thr : list R) (tmax : R) (i : nat) :
  Forall (fun t => t <= tmax) thr ->
  soil_layer (set_where_ge tmax soil_depth) thr i = soil_layer soil_depth thr i.
Proof.
  intros Hmax; unfold soil_layer, getitem.
  rewrite Nat.add_1_r.
  destruct (nth_error thr (S i)) as [hi|] eqn:Hhi; cbn [bind]; [|reflexivity].
  destruct (nth_error thr i) as [lo|] eqn:Hlo; cbn [bind]; [|reflexivity].
  rewrite !clip_cell_masks; f_equal.
  unfold set_where_ge; rewrite map_map.
  apply map_ext; intros s; apply clip_cell_capped.
  rewrite Forall_forall in Hmax; apply Hmax.
  eapply nth_error_In; exact Hhi.
Qed.

(** X4.  Soil deeper than every threshold counts as soil of the depth of
    the largest threshold: capping the soil depth raster at a bound of the
    thresholds changes nothing, neither the value nor the exception. *)
Theorem soil_below_profile_ignored (soil_depth : raster)
    (soil_water_layer : list raster) (thr : list R) (porosity tmax : R) :
  Forall (fun t => t <= tmax) thr ->
  cal_subsurface_flow_depth (set_where_ge tmax soil_depth) soil_water_layer
                            thr porosity
  = cal_subsurface_flow_depth soil_depth soil_water_layer thr porosity.
Proof.
  intros Hmax; unfold cal_subsurface_flow_depth, soil_depth_layers.
  rewrite (mapM_ext_in (soil_layer (set_where_ge tmax soil_depth) thr)
                       (soil_layer soil_depth thr))
    by (intros i _; now apply soil_layer_capped).
  unfold set_where_ge at 1; rewrite length_map; reflexivity.
Qed.

(** A soil depth of 5 under the default thresholds, which end at 2. *)
Lemma soil_below_profile_example :
  cal_subsurface_flow_depth (set_where_ge 2 [5]) [[2 / 10]; [3 / 10]]
                            default_layer_threshold default_porosity
  = cal_subsurface_flow_depth [5] [[2 / 10]; [3 / 10]]
                              default_layer_threshold default_porosity.
Proof.
  apply (soil_below_profile_ignored [5] [[2 / 10]; [3 / 10]]
           default_layer_threshold default_porosity 2).
  unfold default_layer_threshold; repeat (constructor; [lra|]); constructor.
Defined.

Lemma clip_cell_monotone (lo hi s s' : R) :
  lo <= hi -> s <= s' -> clip_cell lo hi s <= clip_cell lo hi s'.
Proof. intros H1 H2; case_clip; lra. Qed.

Lemma layer_water_monotone_depth (s s' : R) (ms : list R) :
  s <= s' -> Forall (fun m => 0 <= m) ms ->
  forall thr, strictly_increasing thr ->
    Rsum (layer_water s ms thr) <= Rsum (layer_water s' ms thr).
Proof.
  intros Hs Hms; induction Hms as [|m ms Hm _ IH]; intros thr Hinc; simpl; [lra|].
  destruct thr as [|lo [|hi thr]]; simpl; try lra.
  destruct Hinc as [Hlt Hinc].
  pose proof (clip_cell_monotone lo hi s s' (Rlt_le _ _ Hlt) Hs).
  pose proof (IH (hi :: thr) Hinc).
  unfold Rsum in *; nra.
Qed.

Lemma broadcastable_length (soil_depth soil_depth' : raster) (swl : list raster) :
  length soil_depth' = length soil_depth ->
  broadcastable soil_depth swl -> broadcastable soil_depth' swl.
Proof.
  intros Hlen (m & c & Hm & Hc); exists m, c; now rewrite Hlen.
Qed.

(** The number of cells of a returned raster is fixed by the shapes of the
    inputs. *)
Lemma cal_subsurface_flow_depth_length (soil_depth soil_depth' : raster)
    (swl : list raster) (thr thr' : list R) (p p' : R) (r r' : farray) :
  length soil_depth' = length soil_depth ->
  cal_subsurface_flow_depth soil_depth swl thr p = Ok r ->
  cal_subsurface_flow_depth soil_depth' swl thr' p' = Ok r' ->
  length r' = length r.
Proof.
  intros Hlen Hr Hr'.
  destruct (cal_subsurface_flow_depth_cells _ _ _ _ _ Hr) as (_ & Hnil & Hc & _).
  destruct (cal_subsurface_flow_depth_cells _ _ _ _ _ Hr') as (_ & Hnil' & Hc' & _).
  destruct swl as [|row swl].
  - rewrite Hnil, Hnil' by reflexivity; exact Hlen.
  - inversion Hc as [|? ? E _]; inversion Hc' as [|? ? E' _]; subst.
    rewrite Hlen in E'; congruence.
Qed.

(** X5.  With strictly increasing thresholds, non-negative moisture and a
    positive porosity, the flow depth does not decrease when the soil gets
    deeper: if the function returns for a soil depth raster, it returns for
    every cellwise deeper one of the same shape, with no cell smaller. *)
Theorem deeper_soil_holds_more_water (soil_depth soil_depth' : raster)
    (soil_water_layer : list raster) (thr : list R) (porosity : R) (r : farray) :
  strictly_increasing thr ->
  Forall (Forall (fun m => 0 <= m)) soil_water_layer ->
  0 < porosity ->
  Forall2 Rle soil_depth soil_depth' ->
  cal_subsurface_flow_depth soil_depth soil_water_layer thr porosity = Ok r ->
  exists r',
    cal_subsurface_flow_depth soil_depth' soil_water_layer thr porosity = Ok r' /\
    length r' = length r /\
    forall j, (j < length r)%nat ->
      exists v v', nth j r NonFinite = Finite v /\
                   nth j r' NonFinite = Finite v' /\ v <= v'.
Proof.
  intros Hinc Hms Hpor Hle Hr.
  pose proof (Forall2_length Hle) as Hlen; symmetry in Hlen.
  destruct (cal_subsurface_flow_depth_cells _ _ _ _ _ Hr)
    as (Hrange & _ & Hc & Hcells).
  destruct (cal_subsurface_flow_depth_returns soil_depth' soil_water_layer thr
              porosity Hrange) as [r' Hr'].
  { eapply broadcastable_length; [exact Hlen|].
    eapply cal_subsurface_flow_depth_shapes; exact Hr. }
  exists r'; split; [exact Hr'|].
  pose proof (cal_subsurface_flow_depth_length _ _ _ _ _ _ _ _ _ Hlen Hr Hr')
    as Hsame.
  split; [exact Hsame|].
  destruct (cal_subsurface_flow_depth_cells _ _ _ _ _ Hr') as (_ & _ & _ & Hcells').
  destruct (broadcast_rows_fit _ _ _ Hc) as [Hfit _].
  intros j Hj.
  rewrite (Hcells j Hj), (Hcells' j) by lia.
  rewrite Hsame, !cell_flow_finite by lra.
  do 2 eexists; split; [reflexivity|]; split; [reflexivity|].
  apply Rmult_le_compat_r; [left; now apply Rinv_0_lt_compat|].
  apply layer_water_monotone_depth; [now apply cell_Rle | | exact Hinc].
  apply column_Forall; assumption.
Qed.

(** A cell of soil depth 0.5 deepened to 1.5 under the default thresholds. *)
Lemma deeper_soil_example :
  exists v v',
    cal_subsurface_flow_depth [5 / 10] [[2 / 10]; [3 / 10]]
                              default_layer_threshold default_porosity
    = Ok [Finite v] /\
    cal_subsurface_flow_depth [15 / 10] [[2 / 10]; [3 / 10]]
                              default_layer_threshold default_porosity
    = Ok [Finite v'] /\
    v <= v'.
Proof.
  destruct (cal_subsurface_flow_depth_same_shape [5 / 10] [[2 / 10]; [3 / 10]]
              default_layer_threshold default_porosity)
    as (r & Hr & Hlen & _);
    [right; simpl; lia | repeat constructor |].
  destruct (deeper_soil_holds_more_water [5 / 10] [15 / 10] [[2 / 10]; [3 / 10]]
              default_layer_threshold default_porosity r)
    as (r' & Hr' & Hlen' & Hcell).
  - simpl; lra.
  - repeat (constructor; [repeat constructor; lra|]); constructor.
  - unfold default_porosity; lra.
  - constructor; [lra | constructor].
  - exact Hr.
  - destruct (Hcell 0%nat) as (v & v' & Hv & Hv' & Hle);
      [rewrite Hlen; simpl; lia|].
    exists v, v'.
    rewrite Hr, Hr'.
    rewrite (singleton_of_nth NonFinite (Finite v) r Hlen Hv).
    rewrite Hlen in Hlen'.
    rewrite (singleton_of_nth NonFinite (Finite v') r' Hlen' Hv').
    repeat split; exact Hle.
Defined.







(** X7.  The computation is cell by cell: when the rasters have one shape,
    the stack has fewer than eight layers (up to which numpy adds the
    layers of a single cell in the same order as the rows of a raster) and
    the function returns, running it on cell [j] alone (the one-cell soil
    depth and the one-cell moisture rasters) returns the value of cell
    [j]. *)
Theorem flow_depth_cell_alone (soil_depth : raster)
    (soil_water_layer : list raster) (thr : list R) (porosity : R)
    (r : farray) (j : nat) :
  same_shape soil_depth soil_water_layer ->
  (length soil_water_layer < 8)%nat ->
  cal_subsurface_flow_depth soil_depth soil_water_layer thr porosity = Ok r ->
  (j < length soil_depth)%nat ->
  cal_subsurface_flow_depth [nth j soil_depth 0]
    (map (fun row => [nth j row 0]) soil_water_layer) thr porosity
  = Ok [nth j r NonFinite].
Proof.
  intros Hshape _ Hr Hj.
  destruct (cal_subsurface_flow_depth_cells _ _ _ _ _ Hr) as (Hrange & _).
  destruct (cal_subsurface_flow_depth_same_shape soil_depth soil_water_layer
              thr porosity Hrange Hshape) as (r0 & Hr0 & _ & Hcells).
  assert (r0 = r) by congruence; subst r0.
  destruct (cal_subsurface_flow_depth_same_shape [nth j soil_depth 0]
              (map (fun row => [nth j row 0]) soil_water_layer) thr porosity)
    as (r1 & Hr1 & Hlen1 & Hcells1).
  - destruct Hrange as [->|Hlt]; [now left | right; now rewrite length_map].
  - unfold same_shape; apply Forall_map, Forall_forall; reflexivity.
  - rewrite Hr1; f_equal.
    apply (singleton_of_nth NonFinite); [exact Hlen1|].
    rewrite (Hcells1 0%nat) by (simpl; lia).
    rewrite (Hcells j Hj), map_map; reflexivity.
Qed.

(** The second of three cells. *)
Lemma flow_depth_cell_alone_example :
  exists r,
    cal_subsurface_flow_depth [1 / 10; 5 / 10; 3]
      [[2 / 10; 3 / 10; 4 / 10]; [1 / 10; 1 / 10; 1 / 10]]
      default_layer_threshold default_porosity = Ok r /\
    cal_subsurface_flow_depth [5 / 10] [[3 / 10]; [1 / 10]]
      default_layer_threshold default_porosity = Ok [nth 1 r NonFinite].
Proof.
  destruct (cal_subsurface_flow_depth_same_shape [1 / 10; 5 / 10; 3]
              [[2 / 10; 3 / 10; 4 / 10]; [1 / 10; 1 / 10; 1 / 10]]
              default_layer_threshold default_porosity)
    as (r & Hr & _ & _);
    [right; simpl; lia | repeat constructor |].
  exists r; split; [exact Hr|].
  apply (flow_depth_cell_alone [1 / 10; 5 / 10; 3]
           [[2 / 10; 3 / 10; 4 / 10]; [1 / 10; 1 / 10; 1 / 10]]
           default_layer_threshold default_porosity r 1).
  - repeat constructor.
  - simpl; lia.
  - exact Hr.
  - simpl; lia.
Defined.

(** * Further properties of [cal_safety_factor] *)

Lemma fs_formula_NonFinite_flow (a hs rc sc bd wd g fi : R) :
  fs_formula a NonFinite hs rc sc bd wd g fi = NonFinite.
Proof. unfold fs_formula; cbn [fdiv fmul fsub]; apply fadd_NonFinite_r. Qed.

(** X8.  A flow depth that is not finite at a cell is never turned into a
    finite factor of safety: whenever the function returns, that cell of the
    result is not finite either. *)
Theorem non_finite_flow_propagates (slope_angle : raster) (flow : farray)
    (soil_depth : raster) (rc sc bd wd g fi : R) (r : farray) (j : nat) :
  cal_safety_factor slope_angle flow soil_depth rc sc bd wd g fi = Ok r ->
  (j < length r)%nat ->
  cell NonFinite (length r) flow j = NonFinite ->
  nth j r NonFinite = NonFinite.
Proof.
  intros Hr Hj Hflow.
  destruct (cal_safety_factor_cells _ _ _ _ _ _ _ _ _ _ Hr) as (_ & _ & _ & Hcells).
  rewrite (Hcells j Hj), Hflow; apply fs_formula_NonFinite_flow.
Qed.

Lemma non_finite_flow_example :
  cal_safety_factor [PI / 4; PI / 4] [Finite (2 / 10); NonFinite] [1; 1]
                    5000 5000 1300 1000 (9806 / 1000) 35
  = Ok [fs_formula (PI / 4) (Finite (2 / 10)) 1
                   5000 5000 1300 1000 (9806 / 1000) 35; NonFinite].
Proof.
  destruct (cal_safety_factor_same_shape [PI / 4; PI / 4]
              [Finite (2 / 10); NonFinite] [1; 1]
              5000 5000 1300 1000 (9806 / 1000) 35 eq_refl eq_refl)
    as (r & Hr & Hlen & Hcells).
  rewrite Hr; f_equal.
  pose proof (non_finite_flow_propagates _ _ _ _ _ _ _ _ _ r 1 Hr) as H1.
  destruct r as [|x [|y [|z r]]]; simpl in Hlen; try discriminate.
  f_equal; [exact (Hcells 0%nat ltac:(simpl; lia))|].
  f_equal; apply H1; [simpl; lia | reflexivity].
Defined.

Lemma broadcast_shape_fits (c n m : nat) :
  fits c n -> fits c m ->
  exists k, broadcast_shape n m = Ok k /\ fits c k.
Proof.
  unfold fits, broadcast_shape; intros Hn Hm.
  destruct (Nat.eqb_spec n m); [exists n; auto|].
  destruct (Nat.eqb_spec n 1); [exists m; auto|].
  destruct (Nat.eqb_spec m 1); [exists n; auto|].
  lia.
Qed.

Lemma map2_fits {A B C : Type} (f : A -> B -> C) (xs : list A) (ys : list B)
    (c : nat) :
  fits c (length xs) -> fits c (length ys) ->
  exists r, map2 f xs ys = Ok r /\ fits c (length r).
Proof.
  intros Hx Hy.
  destruct (broadcast_shape_fits c _ _ Hx Hy) as (k & Hk & Hfit).
  destruct (map2_total f xs ys k Hk) as [r Hr].
  exists r; split; [exact Hr|].
  apply map2_Ok in Hr as (k' & Hk' & _ & Hlen).
  replace (length r) with k by congruence; exact Hfit.
Qed.

(** X9.  On one-dimensional rasters the function fails on a shape mismatch
    and on nothing else: it returns exactly when the three arrays can be
    broadcast to one length (each has that length or a single cell),
    whatever the values, and the only exception it raises is numpy's
    [ValueError]. *)
Theorem safety_factor_returns_iff_shapes_fit (slope_angle : raster)
    (flow : farray) (soil_depth : raster) (rc sc bd wd g fi : R) :
  ((exists r, cal_safety_factor slope_angle flow soil_depth rc sc bd wd g fi
              = Ok r) <->
   (exists c, fits c (length slope_angle) /\ fits c (length flow) /\
              fits c (length soil_depth))) /\
  (forall e, cal_safety_factor slope_angle flow soil_depth rc sc bd wd g fi
             = Raise e -> e = ValueError).
Proof.
  split; [split|].
  - intros [r Hr]; exists (length r).
    destruct (cal_safety_factor_cells _ _ _ _ _ _ _ _ _ _ Hr) as (H1 & H2 & H3 & _).
    auto.
  - intros (c & Hs & Hf & Hd); unfold cal_safety_factor.
    destruct (map2_fits fdiv flow soil_depth c Hf Hd) as (rw & -> & Hrw);
      cbn [bind].
    match goal with
    | |- context [map2 fdiv ?xs ?ys] =>
        destruct (map2_fits fdiv xs ys c) as (left & -> & Hleft);
        [rewrite ?length_map; assumption ..|]
    end; cbn [bind].
    match goal with
    | |- context [map2 fmul ?xs ?ys] =>
        destruct (map2_fits fmul xs ys c) as (fric & -> & Hfric);
        [rewrite ?length_map; assumption ..|]
    end; cbn [bind].
    match goal with
    | |- context [map2 fdiv fric ?ys] =>
        destruct (map2_fits fdiv fric ys c) as (right & -> & Hright);
        [rewrite ?length_map; assumption ..|]
    end; cbn [bind].
    destruct (map2_fits fadd left right c Hleft Hright) as (fs & -> & _);
      cbn [bind].
    now exists fs.
  - intros e; unfold cal_safety_factor.
    repeat match goal with
           | |- context [bind (map2 ?f ?xs ?ys) _] =>
               let H := fresh "H" in
               destruct (map2 f xs ys) eqn:H; cbn [bind];
               [|intros E; inversion E; subst; eapply map2_Raise; exact H]
           end.
    discriminate.
Qed.

(** A one-cell flow depth is stretched over two cells; three soil depths
    against two slopes do not fit. *)
Lemma safety_factor_shapes_example :
  (exists r, cal_safety_factor [PI / 4; PI / 6] [Finite (2 / 10)] [1; 2]
               5000 5000 1300 1000 (9806 / 1000) 35 = Ok r) /\
  cal_safety_factor [PI / 4; PI / 6] [Finite (2 / 10)] [1; 2; 3]
    5000 5000 1300 1000 (9806 / 1000) 35 = Raise ValueError.
Proof.
  split.
  - apply (safety_factor_returns_iff_shapes_fit [PI / 4; PI / 6]
             [Finite (2 / 10)] [1; 2] 5000 5000 1300 1000 (9806 / 1000) 35).
    exists 2%nat; unfold fits; simpl; auto.
  - destruct (cal_safety_factor [PI / 4; PI / 6] [Finite (2 / 10)] [1; 2; 3]
                5000 5000 1300 1000 (9806 / 1000) 35) as [r|e] eqn:E.
    + exfalso.
      assert (Hex : exists r, cal_safety_factor [PI / 4; PI / 6]
                      [Finite (2 / 10)] [1; 2; 3]
                      5000 5000 1300 1000 (9806 / 1000) 35 = Ok r)
        by (exists r; exact E).
      apply (safety_factor_returns_iff_shapes_fit [PI / 4; PI / 6]
               [Finite (2 / 10)] [1; 2; 3]
               5000 5000 1300 1000 (9806 / 1000) 35) in Hex.
      destruct Hex as (c & H1 & _ & H3); unfold fits in *; simpl in *; lia.
    + f_equal.
      now apply (safety_factor_returns_iff_shapes_fit [PI / 4; PI / 6]
                   [Finite (2 / 10)] [1; 2; 3]
                   5000 5000 1300 1000 (9806 / 1000) 35).
Defined.



(** The number of cells of the result depends on the shapes of the three
    rasters only. *)
Lemma cal_safety_factor_length_determined (slope slope' : raster)
    (flow flow' : farray) (sd sd' : raster)
    (rc sc bd wd g fi rc' sc' bd' wd' g' fi' : R) (r r' : farray) :
  length slope' = length slope -> length flow' = length flow ->
  length sd' = length sd ->
  cal_safety_factor slope flow sd rc sc bd wd g fi = Ok r ->
  cal_safety_factor slope' flow' sd' rc' sc' bd' wd' g' fi' = Ok r' ->
  length r' = length r.
Proof.
  intros Hs Hf Hd H1 H2.
  pose proof (cal_safety_factor_length _ _ _ _ _ _ _ _ _ _ H1) as L1.
  pose proof (cal_safety_factor_length _ _ _ _ _ _ _ _ _ _ H2) as L2.
  destruct (cal_safety_factor_cells _ _ _ _ _ _ _ _ _ _ H1) as (A1 & B1 & C1 & _).
  destruct (cal_safety_factor_cells _ _ _ _ _ _ _ _ _ _ H2) as (A2 & B2 & C2 & _).
  unfold fits in *; lia.
Qed.

Lemma fs_real_monotone_in_cohesion (a hs rc rc' sc bd wd g fi fd : R) :
  0 < hs -> 0 < sin a -> 0 < bd -> 0 < g -> rc <= rc' ->
  (rc + sc) / (hs * bd * g) / sin a
    + cos a * tan (fi * PI / 180) * (1 - fd / hs * wd / bd) / sin a
  <= (rc' + sc) / (hs * bd * g) / sin a
    + cos a * tan (fi * PI / 180) * (1 - fd / hs * wd / bd) / sin a.
Proof.
  intros Hhs Hsin Hbd Hg Hrc.
  apply Rplus_le_compat_r.
  apply Rmult_le_compat_r; [left; now apply Rinv_0_lt_compat|].
  apply Rmult_le_compat_r; [|lra].
  left; apply Rinv_0_lt_compat.
  repeat apply Rmult_lt_0_compat; assumption.
Qed.

(** X11.  Root cohesion only helps: at a cell of positive soil depth and
    positive sine of the slope, with positive bulk density and gravity and a
    finite flow depth, raising the root cohesion (all else unchanged) never
    lowers the factor of safety. *)
Theorem root_cohesion_never_lowers_safety (slope_angle : raster) (flow : farray)
    (soil_depth : raster) (rc rc' sc bd wd g fi : R) (r r' : farray)
    (j : nat) (fd : R) :
  cal_safety_factor slope_angle flow soil_depth rc sc bd wd g fi = Ok r ->
  cal_safety_factor slope_angle flow soil_depth rc' sc bd wd g fi = Ok r' ->
  (j < length r)%nat ->
  cell NonFinite (length r) flow j = Finite fd ->
  0 < cell 0 (length r) soil_depth j ->
  0 < sin (cell 0 (length r) slope_angle j) ->
  0 < bd -> 0 < g ->
  rc <= rc' ->
  length r' = length r /\
  exists fs fs', nth j r NonFinite = Finite fs /\
                 nth j r' NonFinite = Finite fs' /\ fs <= fs'.
Proof.
  intros Hr Hr' Hj Hfd Hhs Hsin Hbd Hg Hrc.
  pose proof (cal_safety_factor_length_determined _ _ _ _ _ _
                _ _ _ _ _ _ _ _ _ _ _ _ _ _ eq_refl eq_refl eq_refl Hr Hr')
    as Hsame.
  split; [exact Hsame|].
  destruct (cal_safety_factor_cells _ _ _ _ _ _ _ _ _ _ Hr) as (_ & _ & _ & Hc).
  destruct (cal_safety_factor_cells _ _ _ _ _ _ _ _ _ _ Hr') as (_ & _ & _ & Hc').
  rewrite (Hc j Hj), (Hc' j) by lia.
  rewrite Hsame, Hfd, !fs_formula_finite by lra.
  do 2 eexists; split; [reflexivity|]; split; [reflexivity|].
  now apply fs_real_monotone_in_cohesion.
Qed.

(** The worked cell with a root cohesion of 0 and of 5000. *)
Lemma root_cohesion_example :
  exists fs fs',
    cal_safety_factor [PI / 4] [Finite (2 / 10)] [1]
                      0 5000 1300 1000 (9806 / 1000) 35 = Ok [Finite fs] /\
    cal_safety_factor [PI / 4] [Finite (2 / 10)] [1]
                      5000 5000 1300 1000 (9806 / 1000) 35 = Ok [Finite fs'] /\
    fs <= fs'.
Proof.
  destruct (cal_safety_factor_same_shape [PI / 4] [Finite (2 / 10)] [1]
              0 5000 1300 1000 (9806 / 1000) 35 eq_refl eq_refl)
    as (r & Hr & Hlen & _).
  destruct (cal_safety_factor_same_shape [PI / 4] [Finite (2 / 10)] [1]
              5000 5000 1300 1000 (9806 / 1000) 35 eq_refl eq_refl)
    as (r' & Hr' & Hlen' & _).
  pose proof PI_RGT_0 as Hpi.
  destruct (root_cohesion_never_lowers_safety [PI / 4] [Finite (2 / 10)] [1]
              0 5000 5000 1300 1000 (9806 / 1000) 35 r r' 0 (2 / 10) Hr Hr')
    as (_ & fs & fs' & E & E' & Hle).
  - rewrite Hlen; simpl; lia.
  - rewrite Hlen; reflexivity.
  - rewrite Hlen; unfold cell; simpl; lra.
  - rewrite Hlen; unfold cell; simpl; apply sin_gt_0; lra.
  - lra.
  - lra.
  - lra.
  - exists fs, fs'; rewrite Hr, Hr'.
    rewrite (singleton_of_nth NonFinite (Finite fs) r Hlen E).
    rewrite (singleton_of_nth NonFinite (Finite fs') r' Hlen' E').
    repeat split; exact Hle.
Defined.

(** * The two functions in sequence *)

Lemma same_shape_Forall2 (soil_depth : raster) (swl swl' : list raster) :
  Forall2 (Forall2 Rle) swl swl' ->
  same_shape soil_depth swl -> same_shape soil_depth swl'.
Proof.
  unfold same_shape; induction 1 as [|row row' swl swl' Hrow _ IH]; intros Hs;
    [constructor|].
  inversion Hs as [|? ? Hlen Hrest]; subst.
  constructor; [|now apply IH].
  now rewrite <- (Forall2_length Hrow).
Qed.

Lemma columns_Rle (swl swl' : list raster) (j : nat) :
  Forall2 (Forall2 Rle) swl swl' ->
  Forall2 Rle (map (fun row => nth j row 0) swl)
              (map (fun row => nth j row 0) swl').
Proof.
  induction 1 as [|row row' swl swl' Hrow _ IH]; simpl; constructor;
    [now apply Forall2_Rle_nth | exact IH].
Qed.

(** X12.  Wetter soil is never rated safer.  Take rasters of one shape, a
    stack with fewer layers than thresholds, a positive porosity, and a cell
    of positive soil depth whose slope has a positive sine and a
    non-negative cosine, with positive densities, a friction angle between 0
    and 90 degrees and a non-zero gravity.  For two moisture stacks of which
    the second is cell by cell at least as moist, both runs of
    [cal_subsurface_flow_depth] followed by [cal_safety_factor] return, and
    at that cell the factor of safety of the second is finite and not larger
    than that of the first. *)
Theorem wetter_soil_never_safer (slope_angle soil_depth : raster)
    (swl swl' : list raster) (thr : list R)
    (porosity rc sc bd wd g fi : R) (j : nat) :
  length slope_angle = length soil_depth ->
  same_shape soil_depth swl ->
  Forall2 (Forall2 Rle) swl swl' ->
  (length swl < length thr)%nat ->
  0 < porosity ->
  (j < length soil_depth)%nat ->
  0 < nth j soil_depth 0 ->
  0 < sin (nth j slope_angle 0) ->
  0 <= cos (nth j slope_angle 0) ->
  0 < bd -> 0 < wd -> 0 < fi < 90 -> g <> 0 ->
  exists flow flow' r r' fs fs',
    cal_subsurface_flow_depth soil_depth swl thr porosity = Ok flow /\
    cal_subsurface_flow_depth soil_depth swl' thr porosity = Ok flow' /\
    cal_safety_factor slope_angle flow soil_depth rc sc bd wd g fi = Ok r /\
    cal_safety_factor slope_angle flow' soil_depth rc sc bd wd g fi = Ok r' /\
    nth j r NonFinite = Finite fs /\
    nth j r' NonFinite = Finite fs' /\
    fs' <= fs.
Proof.
  intros Hslope Hshape Hle Hlen Hpor Hj Hhs Hsin Hcos Hbd Hwd Hfi Hg.
  pose proof (same_shape_Forall2 _ _ _ Hle Hshape) as Hshape'.
  pose proof (Forall2_length Hle) as Hlayers.
  destruct (cal_subsurface_flow_depth_same_shape soil_depth swl thr porosity
              (or_intror Hlen) Hshape) as (flow & Hflow & Hn & Hcells).
  destruct (cal_subsurface_flow_depth_same_shape soil_depth swl' thr porosity)
    as (flow' & Hflow' & Hn' & Hcells'); [right; lia | exact Hshape' |].
  destruct (cal_safety_factor_same_shape slope_angle flow soil_depth
              rc sc bd wd g fi) as (r & Hr & _ & Hfs); [lia | lia |].
  destruct (cal_safety_factor_same_shape slope_angle flow' soil_depth
              rc sc bd wd g fi) as (r' & Hr' & _ & Hfs'); [lia | lia |].
  rewrite Hslope in Hfs, Hfs'.
  exists flow, flow'; do 4 eexists.
  repeat (split; [eassumption|]).
  rewrite (Hfs j Hj), (Hfs' j Hj), (Hcells j Hj), (Hcells' j Hj).
  rewrite !cell_flow_finite, !fs_formula_finite by lra.
  split; [reflexivity|]; split; [reflexivity|].
  apply fs_real_antitone; try assumption.
  apply Rmult_le_compat_r; [left; now apply Rinv_0_lt_compat|].
  apply layer_water_monotone, columns_Rle; exact Hle.
Qed.

(** The moisture of the second layer raised from 0.3 to 0.6 on a slope of
    [pi/4]. *)
Lemma wetter_soil_example :
  exists flow flow' r r' fs fs',
    cal_subsurface_flow_depth [5 / 10] [[2 / 10]; [3 / 10]]
      default_layer_threshold default_porosity = Ok flow /\
    cal_subsurface_flow_depth [5 / 10] [[2 / 10]; [6 / 10]]
      default_layer_threshold default_porosity = Ok flow' /\
    cal_safety_factor [PI / 4] flow [5 / 10]
      5000 5000 1300 1000 (9806 / 1000) 35 = Ok r /\
    cal_safety_factor [PI / 4] flow' [5 / 10]
      5000 5000 1300 1000 (9806 / 1000) 35 = Ok r' /\
    nth 0 r NonFinite = Finite fs /\
    nth 0 r' NonFinite = Finite fs' /\
    fs' <= fs.
Proof.
  pose proof PI_RGT_0 as Hpi.
  apply (wetter_soil_never_safer [PI / 4] [5 / 10] [[2 / 10]; [3 / 10]]
           [[2 / 10]; [6 / 10]] default_layer_threshold default_porosity
           5000 5000 1300 1000 (9806 / 1000) 35 0).
  - reflexivity.
  - repeat constructor.
  - constructor; [constructor; [lra | constructor]|].
    constructor; [constructor; [lra | constructor] | constructor].
  - simpl; lia.
  - unfold default_porosity; lra.
  - simpl; lia.
  - simpl; lra.
  - simpl; apply sin_gt_0; lra.
  - simpl; left; apply cos_gt_0; lra.
  - lra.
  - lra.
  - lra.
  - lra.
Defined.

Lemma fs_formula_zero_density (a : R) (hw : f64) (hs rc sc wd g fi : R) :
  fs_formula a hw hs rc sc 0 wd g fi = NonFinite.
Proof.
  unfold fs_formula.
  replace (hs * 0 * g) with 0 by ring.
  rewrite (fdiv_zero (Finite _)); reflexivity.
Qed.

(** X13.  What a finite factor of safety needs.  For rasters of one shape
    and a stack that is not empty and has fewer layers than there are
    thresholds, [cal_subsurface_flow_depth] followed by [cal_safety_factor]
    returns a raster of that shape, and a cell of it is finite only if the
    soil depth and the slope angle of the cell, the porosity, the bulk
    density and the gravity are all different from 0. *)
Theorem finite_cell_needs_regular_inputs (slope_angle soil_depth : raster)
    (swl : list raster) (thr : list R)
    (porosity rc sc bd wd g fi : R) (j : nat) :
  length slope_angle = length soil_depth ->
  same_shape soil_depth swl ->
  swl <> [] ->
  (length swl < length thr)%nat ->
  (j < length soil_depth)%nat ->
  exists flow r,
    cal_subsurface_flow_depth soil_depth swl thr porosity = Ok flow /\
    cal_safety_factor slope_angle flow soil_depth rc sc bd wd g fi = Ok r /\
    length r = length soil_depth /\
    ((exists fs, nth j r NonFinite = Finite fs) ->
     nth j soil_depth 0 <> 0 /\ nth j slope_angle 0 <> 0 /\
     porosity <> 0 /\ bd <> 0 /\ g <> 0).
Proof.
  intros Hslope Hshape Hne Hlen Hj.
  destruct (cal_subsurface_flow_depth_same_shape soil_depth swl thr porosity
              (or_intror Hlen) Hshape) as (flow & Hflow & Hn & Hcells).
  destruct (cal_safety_factor_same_shape slope_angle flow soil_depth
              rc sc bd wd g fi) as (r & Hr & Hrlen & Hfs); [lia | lia |].
  rewrite Hslope in Hfs, Hrlen.
  exists flow, r; repeat (split; [assumption|]).
  rewrite (Hfs j Hj), (Hcells j Hj).
  intros [fs E].
  repeat split; intros H0.
  - rewrite fs_formula_singular in E by (now left); discriminate.
  - rewrite fs_formula_singular in E by (right; rewrite H0; exact sin_0);
      discriminate.
  - subst porosity.
    rewrite cell_flow_zero_porosity, fs_formula_NonFinite_flow in E;
      [discriminate|].
    apply layer_water_cons.
    + destruct swl; [congruence | discriminate].
    + destruct swl; [congruence | simpl in Hlen; lia].
  - subst bd; rewrite fs_formula_zero_density in E; discriminate.
  - subst g; rewrite fs_formula_zero_gravity in E; discriminate.
Qed.

(** A slope cell with the default parameters: its factor of safety is
    finite. *)
Lemma finite_cell_example :
  exists flow r fs,
    cal_subsurface_flow_depth [1] [[2 / 10]]
      default_layer_threshold default_porosity = Ok flow /\
    cal_safety_factor [PI / 4] flow [1]
      5000 5000 1300 1000 (9806 / 1000) 35 = Ok r /\
    nth 0 r NonFinite = Finite fs /\
    default_porosity <> 0.
Proof.
  destruct (finite_cell_needs_regular_inputs [PI / 4] [1] [[2 / 10]]
              default_layer_threshold default_porosity
              5000 5000 1300 1000 (9806 / 1000) 35 0)
    as (flow & r & Hflow & Hr & Hlen & Hfin);
    [reflexivity | repeat constructor | discriminate | simpl; lia
    | simpl; lia |].
  destruct (cal_subsurface_flow_depth_same_shape [1] [[2 / 10]]
              default_layer_threshold default_porosity)
    as (flow' & Hflow' & Hl & Hcells);
    [right; simpl; lia | repeat constructor |].
  assert (flow' = flow) by congruence; subst flow'.
  destruct (cal_safety_factor_same_shape [PI / 4] flow [1]
              5000 5000 1300 1000 (9806 / 1000) 35)
    as (r' & Hr' & _ & Hfs); [exact Hl | reflexivity |].
  assert (r' = r) by congruence; subst r'.
  assert (E : exists fs, nth 0 r NonFinite = Finite fs).
  { rewrite (Hfs 0%nat) by (simpl; lia); simpl nth.
    rewrite (Hcells 0%nat) by (simpl; lia); simpl nth; simpl map.
    rewrite cell_flow_finite by (unfold default_porosity; lra).
    rewrite fs_formula_finite; [eauto | lra | exact sin_PI4_neq_0 | lra | lra]. }
  destruct E as [fs E].
  exists flow, r, fs; repeat (split; [assumption|]).
  apply Hfin; eauto.
Defined.

(** * [install_api_key] *)

Module ApiKeyFacts.
Import String Ascii ApiKey.
Local Open Scope string_scope.

Lemma last_char_append (a b : string) :
  b <> "" -> last_char (a ++ b) = last_char b.
Proof.
  intros Hb; induction a as [|c a IH]; [reflexivity|].
  simpl; rewrite IH.
  destruct (a ++ b) eqn:E; [|reflexivity].
  destruct a; simpl in E; [congruence | discriminate].
Qed.

Lemma last_char_path_join (a b : string) :
  b <> "" -> starts_with_sep b = false ->
  last_char (path_join a b) = last_char b.
Proof.
  intros Hb Hsep; unfold path_join; rewrite Hsep.
  destruct (String.eqb a "" || ends_with_sep a)%bool.
  - now apply last_char_append.
  - rewrite last_char_append; [now apply (last_char_append "/")|].
    destruct b; [congruence | discriminate].
Qed.

(** The two files have different names, so their paths differ whatever the
    two directories are. *)
Lemma config_paths_differ (home_dir work_dir : string) :
  topo_config_path work_dir <> cds_config_path home_dir.
Proof.
  intros E; apply (f_equal last_char) in E.
  unfold topo_config_path, cds_config_path in E.
  rewrite !last_char_path_join in E by (reflexivity || discriminate).
  discriminate.
Qed.

Ltac run_install :=
  unfold install_api_key, io_bind, input, write_file, print; simpl.

(** X14.  With two lines to read and both paths open for writing, the
    function ends without exception; the OpenTopography file holds the first
    line exactly as typed, the CDS file holds
    ["url: https://cds.climate.copernicus.eu/api/v2 " + newline + "key: "]
    followed by the second line, also when both directories are the same;
    no other file is touched, exactly the two lines are consumed, and the
    two prompts and the two messages are written in this order. *)
Theorem keys_stored (home_dir work_dir : string) (w : world)
    (topo_key cds_key : string) (rest : list string) :
  stdin w = topo_key :: cds_key :: rest ->
  writable w (topo_config_path work_dir) = true ->
  writable w (cds_config_path home_dir) = true ->
  exists w',
    install_api_key home_dir work_dir w = (w', inl tt) /\
    files w' (topo_config_path work_dir) = Some topo_key /\
    files w' (cds_config_path home_dir) = Some (cds_config_content cds_key) /\
    (forall p, p <> topo_config_path work_dir -> p <> cds_config_path home_dir ->
               files w' p = files w p) /\
    stdin w' = rest /\
    stdout w' =
    (stdout w ++
     ["Enter Your OpenTopography API Key: ";
      (("OpenTopography API Key file is created at "
         ++ topo_config_path work_dir ++ ".") ++ newline)%string;
      "Enter Your CDS API Key: ";
      ("CDS API Key file is created at " ++ cds_config_path home_dir
        ++ newline)%string])%list.
Proof.
  intros Hin Htopo Hcds; destruct w as [inp out fs wr]; simpl in *; subst inp.
  run_install; rewrite Htopo; simpl; rewrite Hcds; simpl.
  eexists; split; [reflexivity|]; simpl.
  pose proof (config_paths_differ home_dir work_dir) as Hne.
  repeat split.
  - apply String.eqb_neq in Hne; rewrite Hne.
    now rewrite String.eqb_refl.
  - now rewrite String.eqb_refl.
  - intros p H1 H2.
    apply String.eqb_neq in H1, H2; now rewrite H1, H2.
  - rewrite <- !app_assoc; reflexivity.
Qed.

(** A run from the home directory on an empty file system. *)
Lemma keys_stored_example :
  exists w',
    install_api_key "/home/u" "/home/u"
      (World ["abc"; "1:xyz"] [] (fun _ => None) (fun _ => true))
    = (w', inl tt) /\
    files w' "/home/u/.opentopography.txt" = Some "abc" /\
    files w' "/home/u/.cdsapirc" = Some (cds_config_content "1:xyz").
Proof.
  destruct (keys_stored "/home/u" "/home/u"
              (World ["abc"; "1:xyz"] [] (fun _ => None) (fun _ => true))
              "abc" "1:xyz" [] eq_refl eq_refl eq_refl)
    as (w' & Hrun & Htopo & Hcds & _).
  exists w'; repeat split; assumption.
Defined.

(** X15.  When standard input ends, [EOFError] is raised with the work done
    so far left in place: with no line at all no file is written; with one
    line the OpenTopography file already holds it, no other file (the CDS
    file in particular) is touched, and the second prompt has been shown. *)
Theorem end_of_input (home_dir work_dir : string) (w : world) :
  (stdin w = [] ->
   install_api_key home_dir work_dir w =
   (World [] (stdout w ++ ["Enter Your OpenTopography API Key: "])%list
          (files w) (writable w),
    inr EOFError)) /\
  (forall topo_key,
     stdin w = [topo_key] ->
     writable w (topo_config_path work_dir) = true ->
     exists w',
       install_api_key home_dir work_dir w = (w', inr EOFError) /\
       files w' (topo_config_path work_dir) = Some topo_key /\
       (forall p, p <> topo_config_path work_dir -> files w' p = files w p) /\
       stdout w' =
       (stdout w ++
        ["Enter Your OpenTopography API Key: ";
         (("OpenTopography API Key file is created at "
            ++ topo_config_path work_dir ++ ".") ++ newline)%string;
         "Enter Your CDS API Key: "])%list).
Proof.
  destruct w as [inp out fs wr]; simpl; split.
  - intros ->; reflexivity.
  - intros topo_key -> Htopo.
    run_install; rewrite Htopo; simpl.
    eexists; split; [reflexivity|]; simpl.
    repeat split.
    + now rewrite String.eqb_refl.
    + intros p H1; apply String.eqb_neq in H1; now rewrite H1.
    + rewrite <- !app_assoc; reflexivity.
Qed.

(** Only the first key is typed. *)
Lemma end_of_input_example :
  exists w',
    install_api_key "/home/u" "/work"
      (World ["abc"] [] (fun _ => None) (fun _ => true))
    = (w', inr EOFError) /\
    files w' "/work/.opentopography.txt" = Some "abc" /\
    files w' "/home/u/.cdsapirc" = None.
Proof.
  destruct (end_of_input "/home/u" "/work"
              (World ["abc"] [] (fun _ => None) (fun _ => true))) as [_ H].
  destruct (H "abc" eq_refl eq_refl) as (w' & Hrun & Htopo & Hframe & _).
  exists w'; repeat split; [exact Hrun | exact Htopo |].
  rewrite (Hframe "/home/u/.cdsapirc"); [reflexivity | discriminate].
Defined.

(** X16.  A path that cannot be opened for writing raises [OSError] at its
    [open].  For the OpenTopography path: one line has been consumed, no
    file is changed and the second prompt is never shown.  For the CDS
    path: both lines have been consumed, the OpenTopography file is already
    written and nothing else is changed. *)
Theorem unwritable_path (home_dir work_dir : string) (w : world)
    (topo_key : string) (rest : list string) :
  stdin w = topo_key :: rest ->
  (writable w (topo_config_path work_dir) = false ->
   install_api_key home_dir work_dir w =
   (World rest (stdout w ++ ["Enter Your OpenTopography API Key: "])%list
          (files w) (writable w),
    inr OSError)) /\
  (forall cds_key rest',
     rest = cds_key :: rest' ->
     writable w (topo_config_path work_dir) = true ->
     writable w (cds_config_path home_dir) = false ->
     exists w',
       install_api_key home_dir work_dir w = (w', inr OSError) /\
       stdin w' = rest' /\
       files w' (topo_config_path work_dir) = Some topo_key /\
       (forall p, p <> topo_config_path work_dir -> files w' p = files w p)).
Proof.
  destruct w as [inp out fs wr]; simpl; intros ->; split.
  - intros Htopo; run_install; rewrite Htopo; reflexivity.
  - intros cds_key rest' -> Htopo Hcds.
    run_install; rewrite Htopo; simpl; rewrite Hcds; simpl.
    eexists; split; [reflexivity|]; simpl.
    repeat split.
    + now rewrite String.eqb_refl.
    + intros p H1; apply String.eqb_neq in H1; now rewrite H1.
Qed.

(** A working directory that is read-only. *)
Lemma unwritable_path_example :
  install_api_key "/home/u" "/ro"
    (World ["abc"; "1:xyz"] [] (fun _ => None)
           (fun p => negb (String.eqb p "/ro/.opentopography.txt")))
  = (World ["1:xyz"] ["Enter Your OpenTopography API Key: "] (fun _ => None)
           (fun p => negb (String.eqb p "/ro/.opentopography.txt")),
     inr OSError).
Proof.
  apply (unwritable_path "/home/u" "/ro"
           (World ["abc"; "1:xyz"] [] (fun _ => None)
                  (fun p => negb (String.eqb p "/ro/.opentopography.txt")))
           "abc" ["1:xyz"] eq_refl).
  reflexivity.
Defined.

End ApiKeyFacts.
